(** * Route handlers and small helpers of the Kibana excerpt, embedded in Rocq

    Three source files are covered:
    - [find_rules_status_route.ts]: the rule-status lookup handler
      (module [RuleStatus]);
    - [annotations.ts]: the three annotation routes (module [Annotations]);
    - the aggregation utilities [isValidJson] and [toAngularJSON]
      (modules [ValidJson] and [AngularJson]).

    The handlers talk to external collaborators (saved-objects client,
    annotation service, security plugin).  Those are oracles over an abstract
    environment; every call to one of them is appended to a call log, so that
    "is never invoked" and "no retry" are statements about that log. *)

From stdpp Require Import base option list strings pretty gmap.
From Stdlib Require Import ZArith NArith Ascii Sorted.

Local Open Scope Z_scope.

(** ** A small model of the JavaScript effects the handlers use *)

Module Js.

(** A settled promise, which is also how a JavaScript computation ends:
    with a value, or with a thrown reason. *)
Inductive Settled (E A : Type) : Type :=
| Resolved (value : A)
| Rejected (reason : E).
Arguments Resolved {E A} value.
Arguments Rejected {E A} reason.

(** The reason a promise was rejected with, if it was. *)
Definition failure {E A} (p : Settled E A) : option E :=
  match p with Rejected e => Some e | Resolved _ => None end.

(** The world a handler runs in: the state of its collaborators and the
    log of the calls made to them so far, oldest first, each with the
    reason it failed with if it did. *)
Record World (E Env Call : Type) : Type := mkWorld {
  env : Env;
  calls : list (Call * option E)
}.
Arguments mkWorld {E Env Call} env calls.
Arguments env {E Env Call} w.
Arguments calls {E Env Call} w.

Section Monad.
Context {E Env Call : Type}.

Definition M (A : Type) : Type :=
  World E Env Call → Settled E A * World E Env Call.

Definition ret {A} (a : A) : M A := fun w => (Resolved a, w).

(** [throw e] *)
Definition throw {A} (e : E) : M A := fun w => (Rejected e, w).

Definition bind {A B} (m : M A) (k : A → M B) : M B :=
  fun w =>
    match m w with
    | (Resolved a, w') => k a w'
    | (Rejected e, w') => (Rejected e, w')
    end.

(** [try { body } catch (e) { handler e }] *)
Definition try_catch {A} (body : M A) (handler : E → M A) : M A :=
  fun w =>
    match body w with
    | (Resolved a, w') => (Resolved a, w')
    | (Rejected e, w') => handler e w'
    end.

(** [await p]: the value of a fulfilled promise, the reason of a rejected
    one thrown. *)
Definition await {A} (p : Settled E A) : M A := fun w => (p, w).

(** An [async] function never throws to its caller: whatever its body
    does ends up in the promise it returns. *)
Definition async {A} (body : M A) : M (Settled E A) :=
  fun w => let (p, w') := body w in (Resolved p, w').

(** Calling an asynchronous collaborator: the call is logged when it is
    issued and answers with a promise. *)
Definition invoke {A} (c : Call) (f : Env → Settled E A * Env)
  : M (Settled E A) :=
  fun w =>
    let (p, env') := f (env w) in
    (Resolved p, mkWorld env' (calls w ++ [(c, failure p)])).

(** Calling a synchronous collaborator: logged, and a failure is thrown
    on the spot. *)
Definition invokeSync {A} (c : Call) (f : Env → Settled E A * Env) : M A :=
  fun w =>
    let (p, env') := f (env w) in
    (p, mkWorld env' (calls w ++ [(c, failure p)])).

(** [Array.prototype.reduce] with an initial value, for a callback that
    has effects. *)
Fixpoint reduce {A B} (callback : B → A → M B) (l : list A)
    (initialValue : B) : M B :=
  match l with
  | [] => ret initialValue
  | x :: l' => bind (callback initialValue x) (reduce callback l')
  end.

End Monad.

Arguments M E Env Call A : clear implicits.

End Js.

Import Js.

Declare Scope js_scope.
Delimit Scope js_scope with js.
Notation "x <- m ;; k" := (Js.bind m (fun x => k))
  (at level 100, m at next level, right associativity) : js_scope.

(** ** [find_rules_status_route.ts]: the rule-status lookup handler *)

Module RuleStatus.

(** The options object of [savedObjectsClient.find]. *)
Record FindOptions : Type := {
  type : string;
  perPage : Z;
  sortField : string;
  sortOrder : string;
  search : string;
  searchFields : list string
}.

(** [{ message, status_code }], the payload of the error response. *)
Record ErrorBody : Type := {
  message : string;
  status_code : Z
}.

(** What [transformError] returns. *)
Record OutputError : Type := {
  error_message : string;
  error_statusCode : Z
}.

(** A Hapi response object: [headers.response(payload)] creates it with
    status 200, [.code(n)] sets the status. *)
Record HapiResponse : Type := {
  source : option ErrorBody;
  statusCode : Z
}.

Definition response (payload : option ErrorBody) : HapiResponse :=
  {| source := payload; statusCode := 200 |}.

Definition code (n : Z) (r : HapiResponse) : HapiResponse :=
  {| source := source r; statusCode := n |}.

(** The types the route gets from elsewhere.  [Attributes] is the camel-case
    attribute object of a rule-status saved object, [SnakeAttributes] its
    snake-case form, [statusDate] the attribute the store sorts by; [Error]
    is whatever a collaborator throws. *)
Class Domain : Type := {
  Error : Type;
  Env : Type;
  LegacyRequest : Type;
  AlertsClient : Type;
  SavedObjectsClient : Type;
  Attributes : Type;
  SnakeAttributes : Type;
  statusDate : Attributes → Z
}.

Section Data.

Context `{Domain}.

Record SavedObject : Type := { attributes : Attributes }.

Record FindResponse : Type := { saved_objects : list SavedObject }.

Record Clients : Type := {
  alertsClient : option AlertsClient;
  savedObjectsClient : SavedObjectsClient
}.

Record Query : Type := { ids : list string }.

Record Request : Type := {
  query : Query;
  legacy : LegacyRequest
}.

(** One entry of the [RuleStatusResponse]. *)
Record RuleStatus : Type := {
  current_status : option SnakeAttributes;
  failures : list (option SnakeAttributes)
}.

Inductive Call : Type :=
| CallGetClients (request : LegacyRequest)
| CallFind (client : SavedObjectsClient) (options : FindOptions).

(** What the handler hands back to Hapi: the statuses object itself, or a
    response object. *)
Inductive HandlerReturn : Type :=
| ReturnStatuses (statuses : gmap string RuleStatus)
| ReturnResponse (r : HapiResponse).

End Data.

(** The code the route imports or is given: the constant
    [ruleStatusSavedObjectType] of [rules/saved_object_mappings], the key
    renaming [convertToSnakeCase] does on a present object, [transformError]
    of [routes/utils], and the two asynchronous collaborators
    [getClients(request)] and [savedObjectsClient.find(options)] as oracles
    over the environment. *)
Class Collaborators `{Domain} : Type := {
  ruleStatusSavedObjectType : string;
  snakeCaseKeys : Attributes → SnakeAttributes;
  transformError : Error → OutputError;
  getClients : LegacyRequest → Env → Settled Error Clients * Env;
  find :
    SavedObjectsClient → FindOptions → Env → Settled Error FindResponse * Env
}.

Section Route.

Context `{Collaborators}.

Local Abbreviation M := (Js.M Error Env Call).
Local Open Scope js_scope.

(** Modelled from the spec: [convertToSnakeCase] is defined in
    [routes/utils], which is not among the sources.  The spec makes the
    current status "absent if no records exist for that id", so an absent
    argument gives an absent result; a present object has its keys
    renamed. *)
Definition convertToSnakeCase (obj : option Attributes)
  : option SnakeAttributes :=
  match obj with
  | None => None
  | Some o => Some (snakeCaseKeys o)
  end.

(** The options object written out in the callback. *)
Definition findOptionsFor (id : string) : FindOptions :=
  {| type := ruleStatusSavedObjectType;
     perPage := 6;
     sortField := "statusDate";
     sortOrder := "desc";
     search := id;
     searchFields := ["alertId"] |}.

(** The callback given to [query.ids.reduce].  [reduce] calls it for one id
    after the other without waiting, and each call runs as far as its first
    [await], which is where its fetch is issued: the fetches go out in the
    order of the ids.  What follows the [await]s touches no collaborator, so
    running each callback to its end before the next one starts leaves the
    same log and the same promises. *)
Definition reducer (savedObjectsClient : SavedObjectsClient)
    (acc : Settled Error (gmap string RuleStatus)) (id : string)
  : M (Settled Error (gmap string RuleStatus)) :=
  async (
    pending <- invoke (CallFind savedObjectsClient (findOptionsFor id))
                 (find savedObjectsClient (findOptionsFor id)) ;;
    lastFiveErrorsForId <- await pending ;;
    accumulated <- await acc ;;
    let currentStatus :=
      convertToSnakeCase
        (attributes <$> saved_objects lastFiveErrorsForId !! 0%nat) in
    let failures :=
      map (fun errorItem => convertToSnakeCase (Some (attributes errorItem)))
          (drop 1 (saved_objects lastFiveErrorsForId)) in
    ret (<[id := {| current_status := currentStatus;
                    failures := failures |}]> accumulated)).

Definition handler (request : Request) : M HandlerReturn :=
  let query := query request in
  pendingClients <- invoke (CallGetClients (legacy request))
                      (getClients (legacy request)) ;;
  clients <- await pendingClients ;;
  match alertsClient clients with
  | None => ret (ReturnResponse (code 404 (response None)))
  | Some _ =>
      try_catch
        (pendingStatuses <-
           reduce (reducer (savedObjectsClient clients)) (ids query)
             (Resolved ∅) ;;
         statuses <- await pendingStatuses ;;
         ret (ReturnStatuses statuses))
        (fun err =>
           let error := transformError err in
           ret (ReturnResponse
                  (code (error_statusCode error)
                     (response
                        (Some {| message := error_message error;
                                 status_code := error_statusCode error |})))))
  end.

(** *** Reading the handler's run

    The definitions below are not code of the route; they name what a run of
    it fetched, so that the theorems can speak about it. *)

(** The outcomes of the fetches for [ids], in the order the calls are issued,
    starting from environment [e]. *)
Fixpoint fetchAll (client : SavedObjectsClient) (ids : list string) (e : Env)
  : list (Settled Error FindResponse) * Env :=
  match ids with
  | [] => ([], e)
  | id :: ids' =>
      let (p, e1) := find client (findOptionsFor id) e in
      let (ps, e2) := fetchAll client ids' e1 in
      (p :: ps, e2)
  end.

(** The entry the callback builds out of one fetched page. *)
Definition ruleStatusOf (found : FindResponse) : RuleStatus :=
  {| current_status :=
       convertToSnakeCase (attributes <$> saved_objects found !! 0%nat);
     failures :=
       map (fun errorItem => convertToSnakeCase (Some (attributes errorItem)))
           (drop 1 (saved_objects found)) |}.

(** What one run of the callback settles to, given the outcome of its
    fetch. *)
Definition commit (acc : Settled Error (gmap string RuleStatus))
    (fetched : string * Settled Error FindResponse)
  : Settled Error (gmap string RuleStatus) :=
  match fetched.2 with
  | Rejected e => Rejected e
  | Resolved found =>
      match acc with
      | Rejected e => Rejected e
      | Resolved accumulated =>
          Resolved (<[fetched.1 := ruleStatusOf found]> accumulated)
      end
  end.

(** The reason of the last rejected fetch, if any. *)
Fixpoint lastRejection (ps : list (Settled Error FindResponse))
  : option Error :=
  match ps with
  | [] => None
  | p :: ps' =>
      match lastRejection ps' with
      | Some e => Some e
      | None => match p with Rejected e => Some e | Resolved _ => None end
      end
  end.

(** The page fetched by the last call made for [id]. *)
Definition lastFetched (id : string) (fetched : list (string * FindResponse))
  : option FindResponse :=
  snd <$> last (filter (fun p => p.1 = id) fetched).

(** The log one aggregation leaves for [ids]: a call each, with how it went. *)
Definition findCalls (client : SavedObjectsClient) (ids : list string)
    (outcomes : list (Settled Error FindResponse))
  : list (Call * option Error) :=
  zip_with (fun id p => (CallFind client (findOptionsFor id), failure p))
    ids outcomes.

(** Records sorted most recent first, by their status date. *)
Definition descending (records : list SavedObject) : Prop :=
  StronglySorted
    (fun a b => statusDate (attributes b) ≤ statusDate (attributes a))
    records.

(** The error response built in the [catch] block. *)
Definition errorResponse (err : Error) : HapiResponse :=
  {| source := Some {| message := error_message (transformError err);
                       status_code := error_statusCode (transformError err) |};
     statusCode := error_statusCode (transformError err) |}.

End Route.

(** *** A small store to run the handler on

    Attributes are a label and a status date.  The environment counts the
    fetches made so far, and the rule "rule-3" gets its status rewritten
    between two fetches: its only record carries the count as its date.  The
    request says whether the alerting plugin is there. *)

Module Demo.

#[local] Instance domain : Domain := {|
  Error := string;
  Env := nat;
  LegacyRequest := bool;
  AlertsClient := unit;
  SavedObjectsClient := unit;
  Attributes := string * Z;
  SnakeAttributes := string * Z;
  statusDate := snd
|}.

Definition record (label : string) (date : Z) : SavedObject :=
  {| attributes := (label, date) |}.

Definition r1a : SavedObject := record "r1a" 30.
Definition r1b : SavedObject := record "r1b" 20.
Definition r1c : SavedObject := record "r1c" 10.

Definition page (records : list SavedObject) : FindResponse :=
  {| saved_objects := records |}.

Definition storeFind (client : unit) (options : FindOptions) (n : nat)
  : Settled string FindResponse * nat :=
  (if decide (search options = "rule-1") then Resolved (page [r1a; r1b; r1c])
   else if decide (search options = "rule-2") then Resolved (page [])
   else if decide (search options = "rule-3")
        then Resolved (page [record "r3" (Z.of_nat n)])
   else Rejected "index_not_found_exception",
   S n).

Definition clients (alerting : bool) : Clients :=
  {| alertsClient := if alerting then Some () else None;
     savedObjectsClient := () |}.

Definition clientsFor (alerting : bool) (n : nat)
  : Settled string Clients * nat :=
  (Resolved (clients alerting), n).

#[local] Instance collaborators : Collaborators := {|
  ruleStatusSavedObjectType := "siem-detection-engine-rule-status";
  snakeCaseKeys := fun attrs => attrs;
  transformError :=
    fun reason => {| error_message := reason; error_statusCode := 500 |};
  getClients := clientsFor;
  find := storeFind
|}.

Definition requestFor (alerting : bool) (ids : list string) : Request :=
  {| query := {| ids := ids |}; legacy := alerting |}.

Definition start : World string nat Call := mkWorld 0%nat [].

End Demo.

End RuleStatus.

(** ** [annotations.ts]: the three annotation routes

    The handlers are the functions handed to [licensePreRoutingFactory],
    which is not among the sources; what it does before calling them is not
    modelled. *)

Module Annotations.

(** A thrown value: a Boom error, made by a route or by a delegate, or
    anything else a delegate throws. *)
Inductive Thrown (Foreign : Type) : Type :=
| Boom (statusCode : Z) (message : string)
| Other (reason : Foreign).
Arguments Boom {Foreign} statusCode message.
Arguments Other {Foreign} reason.

(** [Boom.badRequest(message)] *)
Definition Boom_badRequest {Foreign} (message : string) : Thrown Foreign :=
  Boom 400 message.

(** Modelled from the spec: [wrapError] is defined in
    [client/error_wrapper], which is not among the sources.  The spec calls
    what it produces "a uniform client-facing error shape (message + status
    code)"; this is that shape. *)
Record WrappedError : Type := {
  wrapped_message : string;
  wrapped_statusCode : Z
}.

(** What a route answers with: [response.ok({ body })] or
    [response.customError(options)]. *)
Inductive KibanaResponse (Body : Type) : Type :=
| ok (body : Body)
| customError (options : WrappedError).
Arguments ok {Body} body.
Arguments customError {Body} options.

(** The user the security plugin resolves. *)
Record AuthenticatedUser : Type := { username : string }.

(** [{ annotationId }], the validated path parameters of the delete route. *)
Record DeleteParams : Type := { annotationId : string }.

(** JavaScript's [s || fallback] for [s] a string or [undefined]: the empty
    string is falsy too. *)
Definition stringOr (s : option string) (fallback : string) : string :=
  match s with
  | Some x => if decide (x = "") then fallback else x
  | None => fallback
  end.

(** The types the routes get from elsewhere. *)
Class Domain : Type := {
  Foreign : Type;
  Env : Type;
  Context : Type;
  CallAsCurrentUser : Type;
  AnnotationService : Type;
  KibanaRequest : Type;
  GetAnnotationsBody : Type;
  IndexAnnotationBody : Type;
  GetResponse : Type;
  IndexResponse : Type;
  DeleteResponse : Type
}.

Section Data.

Context `{Domain}.

(** A validated request: its body, its path parameters, and the rest. *)
Record Request (Body Params : Type) : Type := {
  body : Body;
  params : Params;
  raw : KibanaRequest
}.
#[global] Arguments body {Body Params} r.
#[global] Arguments params {Body Params} r.
#[global] Arguments raw {Body Params} r.

Inductive Call : Type :=
| CallIsAnnotationsFeatureAvailable (callAsCurrentUser : CallAsCurrentUser)
| CallAnnotationServiceProvider (context : Context)
| CallGetCurrentUser (request : Request IndexAnnotationBody ())
| CallGetAnnotations (service : AnnotationService) (args : GetAnnotationsBody)
| CallIndexAnnotation (service : AnnotationService)
    (annotation : IndexAnnotationBody) (username : string)
| CallDeleteAnnotation (service : AnnotationService) (annotationId : string).

(** The calls that reach the annotation service: getting hold of it, and
    its three operations. *)
Definition isServiceCall (c : Call) : bool :=
  match c with
  | CallAnnotationServiceProvider _
  | CallGetAnnotations _ _
  | CallIndexAnnotation _ _ _
  | CallDeleteAnnotation _ _ => true
  | CallIsAnnotationsFeatureAvailable _
  | CallGetCurrentUser _ => false
  end.

End Data.

(** The code the routes import or are given: the constant
    [ANNOTATION_USER_UNKNOWN], [i18n.translate(id, { defaultMessage })],
    [wrapError], the projection [context.ml!.mlClient.callAsCurrentUser], and
    the delegates as oracles over the environment. *)
Class Collaborators `{Domain} : Type := {
  ANNOTATION_USER_UNKNOWN : string;
  translate : string → string → string;
  wrapError : Thrown Foreign → WrappedError;
  callAsCurrentUser : Context → CallAsCurrentUser;
  isAnnotationsFeatureAvailable :
    CallAsCurrentUser → Env → Settled (Thrown Foreign) bool * Env;
  annotationServiceProvider :
    Context → Env → Settled (Thrown Foreign) AnnotationService * Env;
  getCurrentUser :
    Request IndexAnnotationBody () → Env →
    Settled (Thrown Foreign) (option AuthenticatedUser) * Env;
  getAnnotations :
    AnnotationService → GetAnnotationsBody → Env →
    Settled (Thrown Foreign) GetResponse * Env;
  indexAnnotation :
    AnnotationService → IndexAnnotationBody → string → Env →
    Settled (Thrown Foreign) IndexResponse * Env;
  deleteAnnotation :
    AnnotationService → string → Env →
    Settled (Thrown Foreign) DeleteResponse * Env
}.

Section Routes.

Context `{Collaborators}.

Local Abbreviation M := (Js.M (Thrown Foreign) Env Call).
Local Open Scope js_scope.

Definition getAnnotationsFeatureUnavailableErrorMessage : Thrown Foreign :=
  Boom_badRequest
    (translate
       "xpack.ml.routes.annotations.annotationsFeatureUnavailableErrorMessage"
       ("Index and aliases required for the annotations feature have not been"
        +:+ " created or are not accessible for the current user.")).

(** POST /api/ml/annotations *)
Definition getAnnotationsRoute (context : Context)
    (request : Request GetAnnotationsBody ())
  : M (KibanaResponse GetResponse) :=
  try_catch
    (service <- invokeSync (CallAnnotationServiceProvider context)
                  (annotationServiceProvider context) ;;
     pending <- invoke (CallGetAnnotations service (body request))
                  (getAnnotations service (body request)) ;;
     resp <- await pending ;;
     ret (ok resp))
    (fun e => ret (customError (wrapError e))).

(** PUT /api/ml/annotations/index *)
Definition indexAnnotationRoute (context : Context)
    (request : Request IndexAnnotationBody ())
  : M (KibanaResponse IndexResponse) :=
  try_catch
    (pendingAvailable <-
       invoke (CallIsAnnotationsFeatureAvailable (callAsCurrentUser context))
         (isAnnotationsFeatureAvailable (callAsCurrentUser context)) ;;
     annotationsFeatureAvailable <- await pendingAvailable ;;
     if negb annotationsFeatureAvailable
     then throw getAnnotationsFeatureUnavailableErrorMessage
     else
       service <- invokeSync (CallAnnotationServiceProvider context)
                    (annotationServiceProvider context) ;;
       user <- invokeSync (CallGetCurrentUser request)
                 (getCurrentUser request) ;;
       let username := stringOr (username <$> user) ANNOTATION_USER_UNKNOWN in
       pending <- invoke (CallIndexAnnotation service (body request) username)
                    (indexAnnotation service (body request) username) ;;
       resp <- await pending ;;
       ret (ok resp))
    (fun e => ret (customError (wrapError e))).

(** DELETE /api/ml/annotations/delete/{annotationId} *)
Definition deleteAnnotationRoute (context : Context)
    (request : Request () DeleteParams)
  : M (KibanaResponse DeleteResponse) :=
  try_catch
    (pendingAvailable <-
       invoke (CallIsAnnotationsFeatureAvailable (callAsCurrentUser context))
         (isAnnotationsFeatureAvailable (callAsCurrentUser context)) ;;
     annotationsFeatureAvailable <- await pendingAvailable ;;
     if negb annotationsFeatureAvailable
     then throw getAnnotationsFeatureUnavailableErrorMessage
     else
       let annotationId := annotationId (params request) in
       service <- invokeSync (CallAnnotationServiceProvider context)
                    (annotationServiceProvider context) ;;
       pending <- invoke (CallDeleteAnnotation service annotationId)
                    (deleteAnnotation service annotationId) ;;
       resp <- await pending ;;
       ret (ok resp))
    (fun e => ret (customError (wrapError e))).

(** *** Reading a run *)

(** A run of a route, as the theorems look at it: it ended in [result],
    leaving the calls [new] in the log after those of [w]. *)
Definition ranTo {Body} (run : M (KibanaResponse Body))
    (w : World (Thrown Foreign) Env Call) (result : KibanaResponse Body)
    (new : list (Call * option (Thrown Foreign))) : Prop :=
  ∃ e', run w = (Resolved result, mkWorld e' (calls w ++ new)).

(** Every failure of a delegate shows in the answer: a call that failed is
    the last call of the run, and the answer is the wrapped reason. *)
Definition wrapsDelegateErrors {Body} (result : KibanaResponse Body)
    (new : list (Call * option (Thrown Foreign))) : Prop :=
  ∀ c err,
    (c, Some err) ∈ new →
    result = customError (wrapError err) ∧ last new = Some (c, Some err).

End Routes.

(** *** A small setup to run the routes on

    The environment says whether the annotations index is reachable for the
    user, who is signed in, and whether the annotation service works. *)

Module Demo.

Record Setup : Type := {
  available : bool;
  signedIn : option AuthenticatedUser;
  serviceUp : bool
}.

#[local] Instance domain : Domain := {|
  Foreign := string;
  Env := Setup;
  Context := unit;
  CallAsCurrentUser := unit;
  AnnotationService := unit;
  KibanaRequest := unit;
  GetAnnotationsBody := list string;
  IndexAnnotationBody := string;
  GetResponse := list string;
  IndexResponse := string;
  DeleteResponse := string
|}.

Definition answer {A} (s : Setup) (a : A) : Settled (Thrown string) A * Setup :=
  (if serviceUp s then Resolved a else Rejected (Other "no_shard_available"),
   s).

#[local] Instance collaborators : Collaborators := {|
  ANNOTATION_USER_UNKNOWN := "<user unknown>";
  translate := fun id defaultMessage => defaultMessage;
  wrapError :=
    fun e =>
      match e with
      | Boom statusCode message =>
          {| wrapped_message := message; wrapped_statusCode := statusCode |}
      | Other reason =>
          {| wrapped_message := reason; wrapped_statusCode := 500 |}
      end;
  callAsCurrentUser := fun context => ();
  isAnnotationsFeatureAvailable := fun call s => (Resolved (available s), s);
  annotationServiceProvider := fun context s => (Resolved (), s);
  getCurrentUser := fun request s => (Resolved (signedIn s), s);
  getAnnotations := fun service args s => answer s args;
  indexAnnotation :=
    fun service annotation username s =>
      answer s (username +:+ ": " +:+ annotation);
  deleteAnnotation := fun service annotationId s => answer s annotationId
|}.

Definition upsert (annotation : string) : Request string () :=
  {| body := annotation; params := (); raw := () |}.

Definition delete (id : string) : Request () DeleteParams :=
  {| body := (); params := {| annotationId := id |}; raw := () |}.

Definition start (s : Setup) : World (Thrown string) Setup Call :=
  mkWorld s [].

End Demo.

End Annotations.

(** ** The aggregation utilities: [isValidJson] *)

Module ValidJson.

(** A JavaScript string is its sequence of UTF-16 code units. *)
Definition JsString : Type := list N.

(** The code units of a string of ASCII characters. *)
Fixpoint codeUnits (s : string) : JsString :=
  match s with
  | EmptyString => []
  | String c s' => Ascii.N_of_ascii c :: codeUnits s'
  end.

(** What [String.prototype.trim] strips: ECMAScript's WhiteSpace (tab,
    vertical tab, form feed, space, no-break space, the byte order mark and
    the other space separators) and LineTerminator (line feed, carriage
    return, line and paragraph separator). *)
Definition isWhiteSpace (c : N) : bool :=
  bool_decide
    (c ∈ [0x0009; 0x000B; 0x000C; 0x0020; 0x00A0; 0xFEFF;
          0x1680; 0x2000; 0x2001; 0x2002; 0x2003; 0x2004; 0x2005; 0x2006;
          0x2007; 0x2008; 0x2009; 0x200A; 0x202F; 0x205F; 0x3000;
          0x000A; 0x000D; 0x2028; 0x2029]%N).

Fixpoint trimStart (s : JsString) : JsString :=
  match s with
  | [] => []
  | c :: s' => if isWhiteSpace c then trimStart s' else s
  end.

Definition trimEnd (s : JsString) : JsString := rev (trimStart (rev s)).

(** [value.trim()] *)
Definition trim (s : JsString) : JsString := trimEnd (trimStart s).

(** What [isValidJson] gets from the runtime: [JSON.parse], which returns a
    value or throws a [SyntaxError]. *)
Class Runtime : Type := {
  Json : Type;
  SyntaxError : Type;
  JSON_parse : JsString → Settled SyntaxError Json
}.

Inductive Call : Type :=
| CallJSON_parse (text : JsString).

Section IsValidJson.

Context `{Runtime}.

Local Abbreviation M := (Js.M SyntaxError () Call).
Local Open Scope js_scope.

Definition isValidJson (value : JsString) : M bool :=
  if bool_decide (value = []) || (length value =? 0)%nat
  then ret true
  else
    let trimmedValue := trim value in
    if (length trimmedValue =? 0)%nat
    then ret true
    else
      if bool_decide (trimmedValue !! 0%nat = Some 123%N)
         || bool_decide (trimmedValue !! 0%nat = Some 91%N)
      then
        try_catch
          (parsed <- invokeSync (CallJSON_parse trimmedValue)
                       (fun e => (JSON_parse trimmedValue, e)) ;;
           ret true)
          (fun e => ret false)
      else ret false.

End IsValidJson.

(** *** A parser to run [isValidJson] on

    It knows six texts, all of them valid JSON; the first is the letter a
    between double quotes. *)

Module Demo.

#[local] Instance runtime : Runtime := {|
  Json := string;
  SyntaxError := string;
  JSON_parse :=
    fun text =>
      if bool_decide
           (text ∈ [34; 97; 34]%N
                   :: (codeUnits <$> ["42"; "true"; "{}"; "[1]"; "[1,2]"]))
      then Resolved "parsed"
      else Rejected "Unexpected token"
|}.

Definition start : World string () Call := mkWorld () [].

End Demo.

End ValidJson.

(** ** The aggregation utilities: [toAngularJSON] *)

Module AngularJson.

(** The two host objects [toJsonReplacer] looks for: the global [window]
    and [window.document]. *)
Inductive Host : Type := TheWindow | TheDocument.

#[local] Set Warnings "-register-all".

(** A JSON text, as a tree. *)
Inductive Json : Type :=
| JNull
| JBool (b : bool)
| JNumber (text : string)
| JString (s : string)
| JArray (items : list Json)
| JObject (members : list (string * Json)).

(** What [JSON.stringify] throws: a [RangeError] when the call stack is
    exhausted, a [TypeError] on a structure it cannot convert. *)
Inductive JsError : Type := RangeError | TypeError.

(** The third argument of [JSON.stringify], as it reads it: a number of
    spaces, a string, or anything else, which it ignores. *)
Inductive Space : Type :=
| Spaces (n : nat)
| Text (s : string)
| NoSpace.

(** What the values are made of that the model leaves open: numbers (with
    whether one is finite, whether it is truthy, how it prints) and
    functions, which are never called here; then the two pieces of
    [JSON.stringify] that do not matter for property keys, the quoting of a
    string and what becomes of a host object that reaches serialization. *)
Class Runtime : Type := {
  Num : Type;
  Fn : Type;
  numberIsFinite : Num → bool;
  numberIsTruthy : Num → bool;
  numberToString : Num → string;
  QuoteJSONString : string → string;
  serializeHost : Host → Settled JsError (option Json)
}.

Section Values.

Context `{Runtime}.

(** A JavaScript value: a primitive (symbols and BigInts among them), a
    function, a host object, or a tree of arrays and objects.  An object is
    its own enumerable string-keyed properties, in order, and a function has
    such properties too.  Functions are never called here: [JSON.stringify]
    would call a [toJSON] method, so what is said of its result is said of
    values without one where that matters ([serializable] below). *)
Inductive Value : Type :=
| Undefined
| Null
| Boolean (b : bool)
| Number (n : Num)
| Str (s : string)
| Symbol_ (description : string)
| BigInt_ (n : Z)
| Function_ (f : Fn) (props : list (string * Value))
| HostObject (h : Host)
| Array (items : list Value)
| Object (props : list (string * Value)).

(** ToBoolean *)
Definition truthy (v : Value) : bool :=
  match v with
  | Undefined | Null => false
  | Boolean b => b
  | Number n => numberIsTruthy n
  | Str s => negb (bool_decide (s = ""))
  | BigInt_ n => negb (n =? 0)
  | Symbol_ _ | Function_ _ _ | HostObject _ | Array _ | Object _ => true
  end.

(** [obj.name], on the own properties of a tree object or of a function; a
    primitive or an array has no such property, and the host objects are
    only asked for the names below. *)
Definition getProperty (obj : Value) (name : string) : Value :=
  match obj with
  | Object props | Function_ _ props =>
      match list_find (fun p => p.1 = name) props with
      | Some (_, (_, v)) => v
      | None => Undefined
      end
  | HostObject TheWindow =>
      if decide (name = "window") then HostObject TheWindow
      else if decide (name = "document") then HostObject TheDocument
      else Undefined
  | _ => Undefined
  end.

(** [obj.window === obj]: strict equality on objects is identity, and the
    [window] property of a tree object is a proper part of it, so another
    object; only the window is its own [window]. *)
Definition isOwnWindow (obj : Value) : bool :=
  match obj, getProperty obj "window" with
  | HostObject TheWindow, HostObject TheWindow => true
  | _, _ => false
  end.

(** [window.document === value] *)
Definition isTheDocument (value : Value) : bool :=
  match value with
  | HostObject TheDocument => true
  | _ => false
  end.

(** [key.charAt(i)]: the character as a string, the empty string past the
    end. *)
Definition charAt (key : string) (i : nat) : string :=
  match String.get i key with
  | Some c => String c ""
  | None => ""
  end.

Definition isWindow (obj : Value) : bool :=
  truthy obj && isOwnWindow obj.

Definition isScope (obj : Value) : bool :=
  truthy obj
  && truthy (getProperty obj "$evalAsync")
  && truthy (getProperty obj "$watch").

(** [JSON.stringify] always calls its replacer with a string for [key], so
    [typeof key === 'string'] holds. *)
Definition toJsonReplacer (key : string) (value : Value) : Value :=
  if bool_decide (charAt key 0 = "$") && bool_decide (charAt key 1 = "$")
  then Undefined
  else if isWindow value then Str "$WINDOW"
  else if truthy value && isTheDocument value then Str "$DOCUMENT"
  else if isScope value then Str "$SCOPE"
  else value.

(** *** [JSON.stringify], after ECMAScript's SerializeJSONProperty *)

(** The elements of an array: each is serialized under its index as key,
    and one that comes out undefined is written as null. *)
Fixpoint serializeElements
    (serialize : string → Value → Settled JsError (option Json))
    (index : nat) (items : list Value) : Settled JsError (list Json) :=
  match items with
  | [] => Resolved []
  | v :: items' =>
      match serialize (pretty index) v with
      | Rejected e => Rejected e
      | Resolved element =>
          match serializeElements serialize (S index) items' with
          | Rejected e => Rejected e
          | Resolved elements => Resolved (default JNull element :: elements)
          end
      end
  end.

(** The members of an object: a property that comes out undefined is left
    out. *)
Fixpoint serializeMembers
    (serialize : string → Value → Settled JsError (option Json))
    (props : list (string * Value)) : Settled JsError (list (string * Json)) :=
  match props with
  | [] => Resolved []
  | (k, v) :: props' =>
      match serialize k v with
      | Rejected e => Rejected e
      | Resolved member =>
          match serializeMembers serialize props' with
          | Rejected e => Rejected e
          | Resolved members =>
              Resolved
                match member with
                | Some j => (k, j) :: members
                | None => members
                end
          end
      end
  end.

(** SerializeJSONProperty with a replacer function.  [stack] is the depth
    of nesting the call stack has room for; [None] is [undefined].  Its
    second step, the call of a [toJSON] method, is left out: the model is
    that of [JSON.stringify] on the values that hold none. *)
Fixpoint SerializeJSONProperty (stack : nat)
    (replacer : string → Value → Value) (key : string) (value : Value)
  : Settled JsError (option Json) :=
  match stack with
  | O => Rejected RangeError
  | S stack' =>
      match replacer key value with
      | Null => Resolved (Some JNull)
      | Boolean b => Resolved (Some (JBool b))
      | Str s => Resolved (Some (JString s))
      | Number n =>
          Resolved
            (Some (if numberIsFinite n then JNumber (numberToString n)
                   else JNull))
      | Undefined | Symbol_ _ | Function_ _ _ => Resolved None
      | BigInt_ _ => Rejected TypeError
      | HostObject h => serializeHost h
      | Array items =>
          match serializeElements (SerializeJSONProperty stack' replacer)
                  0 items with
          | Rejected e => Rejected e
          | Resolved elements => Resolved (Some (JArray elements))
          end
      | Object props =>
          match serializeMembers (SerializeJSONProperty stack' replacer)
                  props with
          | Rejected e => Rejected e
          | Resolved members => Resolved (Some (JObject members))
          end
      end
  end.

(** [String.prototype.repeat] and [Array.prototype.join] *)
Fixpoint repeatString (s : string) (n : nat) : string :=
  match n with
  | O => ""
  | S n' => s +:+ repeatString s n'
  end.

Fixpoint join (separator : string) (parts : list string) : string :=
  match parts with
  | [] => ""
  | [part] => part
  | part :: parts' => part +:+ separator +:+ join separator parts'
  end.

(** The gap: at most ten spaces, or the first ten characters of a string. *)
Definition gapOf (space : Space) : string :=
  match space with
  | Spaces n => repeatString " " (Nat.min n 10)
  | Text s => String.substring 0 10 s
  | NoSpace => ""
  end.

Definition newline : string := String (Ascii.ascii_of_nat 10) "".

Definition wrap (opening closing gap indent stepback : string)
    (partial : list string) : string :=
  match partial with
  | [] => opening +:+ closing
  | _ =>
      if bool_decide (gap = "")
      then opening +:+ join "," partial +:+ closing
      else
        opening +:+ newline +:+ indent
        +:+ join ("," +:+ newline +:+ indent) partial
        +:+ newline +:+ stepback +:+ closing
  end.

(** The text of a tree, as SerializeJSONObject and SerializeJSONArray lay
    it out. *)
Fixpoint render (gap indent : string) (j : Json) : string :=
  match j with
  | JNull => "null"
  | JBool b => if b then "true" else "false"
  | JNumber text => text
  | JString s => QuoteJSONString s
  | JArray items =>
      wrap "[" "]" gap (indent +:+ gap) indent
        (map (render gap (indent +:+ gap)) items)
  | JObject members =>
      wrap "{" "}" gap (indent +:+ gap) indent
        (map (fun member =>
                QuoteJSONString member.1 +:+ ":"
                +:+ (if bool_decide (gap = "") then "" else " ")
                +:+ render gap (indent +:+ gap) member.2)
             members)
  end.

(** [JSON.stringify(value, replacer, space)], for a replacer function. *)
Definition JSON_stringify (stack : nat) (value : Value)
    (replacer : string → Value → Value) (space : Space)
  : Settled JsError (option string) :=
  match SerializeJSONProperty stack replacer "" value with
  | Rejected e => Rejected e
  | Resolved None => Resolved None
  | Resolved (Some j) => Resolved (Some (render (gapOf space) "" j))
  end.

(** [pretty] after [if (typeof pretty === 'number') pretty = pretty ? 2 :
    null], as [JSON.stringify] reads it. *)
Definition spaceOf (pretty : Value) : Space :=
  match pretty with
  | Number n => if numberIsTruthy n then Spaces 2 else NoSpace
  | Str s => Text s
  | _ => NoSpace
  end.

Definition toAngularJSON (stack : nat) (obj : Value) (pretty : Value)
  : Settled JsError (option string) :=
  match obj with
  | Undefined => Resolved (Some "")
  | _ => JSON_stringify stack obj toJsonReplacer (spaceOf pretty)
  end.

(** *** Reading the output *)

(** The key starts with the two characters [$$]. *)
Definition startsWithDollars (key : string) : bool := String.prefix "$$" key.

(** No member of the tree, at any depth, has a key that starts with [$$]. *)
Fixpoint noDollarKeys (j : Json) : bool :=
  match j with
  | JArray items => forallb noDollarKeys items
  | JObject members =>
      forallb (fun member =>
                 negb (startsWithDollars member.1) && noDollarKeys member.2)
        members
  | _ => true
  end.

(** How deeply arrays and objects are nested in a value. *)
Fixpoint depth (v : Value) : nat :=
  match v with
  | Array items => S (foldr (fun item d => Nat.max (depth item) d) 0%nat items)
  | Object props =>
      S (foldr (fun prop d => Nat.max (depth prop.2) d) 0%nat props)
  | _ => 0%nat
  end.

(** IsCallable([value.toJSON]) *)
Definition hasToJSON (value : Value) : bool :=
  match getProperty value "toJSON" with
  | Function_ _ _ => true
  | _ => false
  end.

(** A value [JSON.stringify] can go through without calling into it and
    without a [TypeError]: no [toJSON] method and no BigInt anywhere in it. *)
Fixpoint serializable (v : Value) : bool :=
  match v with
  | BigInt_ _ => false
  | Function_ f props => negb (hasToJSON (Function_ f props))
  | Array items => forallb serializable items
  | Object props =>
      negb (hasToJSON (Object props))
      && forallb (fun prop => serializable prop.2) props
  | _ => true
  end.

End Values.

(** *** A runtime to run [toAngularJSON] on

    Numbers are integers, strings are quoted without escapes (the examples
    need none), and a host object cannot be converted. *)

Module Demo.

Definition quote : string := String (Ascii.ascii_of_nat 34) "".

#[local] Instance runtime : Runtime := {|
  Num := Z;
  Fn := unit;
  numberIsFinite := fun n => true;
  numberIsTruthy := fun n => negb (n =? 0);
  numberToString := pretty;
  QuoteJSONString := fun s => quote +:+ s +:+ quote;
  serializeHost := fun h => Rejected TypeError
|}.

(** [{ name: "cpu", $$hashKey: "object:7", tags: [{ $$hashKey: "object:8",
    id: 1 }], $scope: <a scope>, win: window }] *)
Definition row : Value :=
  Object
    [("name", Str "cpu");
     ("$$hashKey", Str "object:7");
     ("tags", Array [Object [("$$hashKey", Str "object:8");
                             ("id", Number 1)]]);
     ("$scope", Object [("$evalAsync", Function_ () []);
                        ("$watch", Function_ () []);
                        ("$$watchers", Null)]);
     ("win", HostObject TheWindow)].

End Demo.

End AngularJson.

(** ** A second store for the rule-status handler

    This one keeps no state and pays no attention to the page size it is
    asked for: "rule-1" has eight status records and every other rule has
    none.  The request says whether scoped clients can be had at all. *)

Module WideStore.

Import RuleStatus.

#[local] Instance domain : Domain := {|
  Error := string;
  Env := unit;
  LegacyRequest := bool;
  AlertsClient := unit;
  SavedObjectsClient := unit;
  Attributes := Z;
  SnakeAttributes := Z;
  statusDate := fun date => date
|}.

Definition records (dates : list Z) : FindResponse :=
  {| saved_objects := (fun date => {| attributes := date |}) <$> dates |}.

Definition pageOf (id : string) : FindResponse :=
  if decide (id = "rule-1")
  then records [80; 70; 60; 50; 40; 30; 20; 10]
  else records [].

Definition clients : Clients :=
  {| alertsClient := Some (); savedObjectsClient := () |}.

#[local] Instance collaborators : Collaborators := {|
  ruleStatusSavedObjectType := "siem-detection-engine-rule-status";
  snakeCaseKeys := fun date => date;
  transformError :=
    fun reason => {| error_message := reason; error_statusCode := 500 |};
  getClients :=
    fun signedIn e =>
      (if signedIn then Resolved clients else Rejected "session expired", e);
  find := fun client options e => (Resolved (pageOf (search options)), e)
|}.

Definition requestFor (signedIn : bool) (ids : list string) : Request :=
  {| query := {| ids := ids |}; legacy := signedIn |}.

Definition start : World string () Call := mkWorld () [].

End WideStore.

(** ** The aggregation utilities: [isValidInterval] *)

Module ValidInterval.

Import ValidJson.

(** [value.replace(/\s/g, '')]: the class [\s] of a regular expression is
    the whitespace that [trim] strips. *)
Definition removeWhitespace (value : JsString) : JsString :=
  filter (fun c => isWhiteSpace c = false) value.

(** What [isValidInterval] imports: [leastCommonInterval], which returns an
    interval or throws, and [isValidEsInterval]. *)
Class Runtime : Type := {
  IntervalError : Type;
  leastCommonInterval : JsString → JsString → Settled IntervalError JsString;
  isValidEsInterval : JsString → Settled IntervalError bool
}.

Inductive Call : Type :=
| CallLeastCommonInterval (a b : JsString)
| CallIsValidEsInterval (interval : JsString).

Section IsValidInterval.

Context `{Runtime}.

Local Abbreviation M := (Js.M IntervalError () Call).
Local Open Scope js_scope.

Definition _parseWithBase (value baseInterval : JsString) : M bool :=
  try_catch
    (interval <- invokeSync (CallLeastCommonInterval baseInterval value)
                   (fun e => (leastCommonInterval baseInterval value, e)) ;;
     ret (bool_decide (interval = removeWhitespace value)))
    (fun e => ret false).

(** [baseInterval] is optional, and an empty string is as good as none. *)
Definition isValidInterval (value : JsString) (baseInterval : option JsString)
  : M bool :=
  if match baseInterval with
     | Some base => negb (bool_decide (base = []))
     | None => false
     end
  then _parseWithBase value (default [] baseInterval)
  else invokeSync (CallIsValidEsInterval value)
         (fun e => (isValidEsInterval value, e)).

End IsValidInterval.

(** *** Intervals to run [isValidInterval] on

    An interval is a number of minutes followed by the letter m.  The least
    common interval of two of them is the least common multiple of the two
    numbers; anything else makes it throw. *)

Module Demo.

Definition minutes (interval : JsString) : option N :=
  match rev interval with
  | 109%N :: digits =>
      foldr (fun c n =>
               n ← n;
               if bool_decide (48 ≤ c ≤ 57)%N then Some (10 * n + (c - 48))%N
               else None)
        (if bool_decide (digits = []) then None else Some 0%N) digits
  | _ => None
  end.

#[local] Instance runtime : Runtime := {|
  IntervalError := string;
  leastCommonInterval :=
    fun a b =>
      match minutes a, minutes b with
      | Some x, Some y => Resolved (codeUnits (pretty (N.lcm x y)) ++ [109%N])
      | _, _ => Rejected "Invalid interval format"
      end;
  isValidEsInterval := fun interval => Resolved (bool_decide (is_Some (minutes interval)))
|}.

Definition start : World string () Call := mkWorld () [].

End Demo.

End ValidInterval.

(** * Properties *)

(** ** The rule-status lookup handler *)

Module RuleStatusProps.

Import RuleStatus.

Section Run.

Context {D : Domain} {C : Collaborators}.

Implicit Types (client : SavedObjectsClient) (id : string).
Implicit Types (acc : Settled Error (gmap string RuleStatus)).
Implicit Types (w : World Error Env Call).

(** One run of the callback: the fetch is issued and logged, and the
    promise returned settles to [commit]. *)
Lemma reducer_run client acc id w :
  reducer client acc id w =
  (Resolved (commit acc (id, (find client (findOptionsFor id) (env w)).1)),
   mkWorld (find client (findOptionsFor id) (env w)).2
     (calls w ++ [(CallFind client (findOptionsFor id),
                   failure (find client (findOptionsFor id) (env w)).1)])).
Proof.
  unfold reducer, async, bind, invoke, await, ret, commit.
  destruct (find client (findOptionsFor id) (env w)) as [[found|e] e1];
    destruct acc; reflexivity.
Qed.

(** The whole reduction: one fetch per id, in order, folded by [commit]. *)
Lemma reduce_run client ids acc w :
  reduce (reducer client) ids acc w =
  (Resolved (fold_left commit (zip ids (fetchAll client ids (env w)).1) acc),
   mkWorld (fetchAll client ids (env w)).2
     (calls w ++ findCalls client ids (fetchAll client ids (env w)).1)).
Proof.
  revert acc w. induction ids as [|id ids IH]; intros acc w.
  - destruct w. simpl. unfold ret. by rewrite app_nil_r.
  - simpl. unfold bind. rewrite reducer_run, IH. simpl.
    destruct (find client (findOptionsFor id) (env w)) as [p e1]. simpl.
    destruct (fetchAll client ids e1) as [ps e2]. simpl.
    by rewrite <- app_assoc.
Qed.

Lemma fetchAll_length client ids e :
  length (fetchAll client ids e).1 = length ids.
Proof.
  revert e. induction ids as [|id ids IH]; intros e; simpl; [done|].
  destruct (find client (findOptionsFor id) e) as [p e1].
  specialize (IH e1). destruct (fetchAll client ids e1). simpl in *. lia.
Qed.

(** Once rejected, the accumulator stays rejected with the same reason
    unless a later fetch is rejected too. *)
Lemma fold_commit_stays_rejected
    (l : list (string * Settled Error FindResponse)) (e : Error) :
  lastRejection l.*2 = None → fold_left commit l (Rejected e) = Rejected e.
Proof.
  induction l as [|[id p] l IH]; csimpl; [done|].
  destruct (lastRejection l.*2); [done|].
  destruct p; [|done]. intros _. by apply IH.
Qed.

Lemma fold_commit_rejected
    (l : list (string * Settled Error FindResponse)) acc (e : Error) :
  lastRejection l.*2 = Some e → fold_left commit l acc = Rejected e.
Proof.
  revert acc. induction l as [|[id p] l IH]; intros acc; csimpl; [done|].
  destruct (lastRejection l.*2) as [e'|] eqn:Hl.
  - intros [= ->]. by apply IH.
  - destruct p as [found|e']; [done|]. intros [= ->].
    unfold commit at 2. simpl. by apply fold_commit_stays_rejected.
Qed.

(** With every fetch resolved, the fold is a sequence of insertions. *)
Lemma fold_commit_resolved (l : list (string * FindResponse))
    (m : gmap string RuleStatus) :
  fold_left commit (prod_map id Resolved <$> l) (Resolved m) =
  Resolved (fold_left (fun m p => <[p.1 := ruleStatusOf p.2]> m) l m).
Proof.
  revert m. induction l as [|[k found] l IH]; intros m; simpl; [done|].
  by rewrite <- IH.
Qed.

Lemma zip_resolved (ids : list string) (rs : list FindResponse) :
  zip ids (Resolved (E := Error) <$> rs) = prod_map id Resolved <$> zip ids rs.
Proof.
  revert rs. induction ids as [|k ids IH]; intros [|r rs]; simpl; [done..|].
  by rewrite IH.
Qed.

Lemma lastFetched_snoc id (l : list (string * FindResponse)) k found :
  lastFetched id (l ++ [(k, found)]) =
  if decide (k = id) then Some found else lastFetched id l.
Proof.
  unfold lastFetched. rewrite filter_app, filter_cons, filter_nil. simpl.
  case_decide.
  - by rewrite last_snoc.
  - by rewrite app_nil_r.
Qed.

(** Last write wins: the entry of [id] comes from the last page fetched for
    it. *)
Lemma lookup_inserted (l : list (string * FindResponse))
    (m : gmap string RuleStatus) id :
  fold_left (fun m p => <[p.1 := ruleStatusOf p.2]> m) l m !! id =
  match lastFetched id l with
  | Some found => Some (ruleStatusOf found)
  | None => m !! id
  end.
Proof.
  induction l as [|[k found] l IH] using rev_ind; [done|].
  rewrite fold_left_app, lastFetched_snoc. simpl.
  case_decide as Hk.
  - subst k. by rewrite lookup_insert_eq.
  - by rewrite lookup_insert_ne.
Qed.

Lemma dom_inserted (l : list (string * FindResponse))
    (m : gmap string RuleStatus) :
  dom (fold_left (fun m p => <[p.1 := ruleStatusOf p.2]> m) l m) =
  list_to_set l.*1 ∪ dom m.
Proof.
  induction l as [|[k found] l IH] using rev_ind.
  - simpl. by rewrite (left_id_L ∅ (∪)).
  - rewrite fold_left_app, fmap_app, list_to_set_app_L. simpl.
    rewrite dom_insert_L, IH, (right_id_L ∅ (∪)).
    by rewrite (comm_L (∪) (list_to_set l.*1) {[k]}), (assoc_L (∪)).
Qed.

(** The run of the handler when the alerts client is there: the statuses
    when no fetch was rejected, the error response of the last rejection
    otherwise. *)
Lemma handler_run request (e : Env) (log : list (Call * option Error)) clients e1 ac :
  getClients (legacy request) e = (Resolved clients, e1) →
  alertsClient clients = Some ac →
  handler request (mkWorld e log) =
  (Resolved
     match fold_left commit
             (zip (ids (query request))
                (fetchAll (savedObjectsClient clients)
                   (ids (query request)) e1).1)
             (Resolved ∅) with
     | Resolved statuses => ReturnStatuses statuses
     | Rejected err => ReturnResponse (errorResponse err)
     end,
   mkWorld
     (fetchAll (savedObjectsClient clients) (ids (query request)) e1).2
     (log ++ (CallGetClients (legacy request), None)
          :: findCalls (savedObjectsClient clients) (ids (query request))
                   (fetchAll (savedObjectsClient clients) (ids (query request)) e1).1)).
Proof.
  intros Hclients Hac.
  unfold handler, bind at 1, invoke. simpl. rewrite Hclients.
  unfold bind at 1, await. rewrite Hac.
  unfold try_catch, bind at 1. rewrite reduce_run. simpl.
  rewrite <- app_assoc. simpl.
  unfold bind, await, ret.
  by destruct (fold_left commit _ _).
Qed.

Lemma lastFetched_elem_of id (l : list (string * FindResponse)) found :
  lastFetched id l = Some found → id ∈ l.*1.
Proof.
  unfold lastFetched. intros Hlast.
  destruct (last (filter (fun p => p.1 = id) l)) as [[k r]|] eqn:Hl; [|done].
  apply last_Some_elem_of, list_elem_of_filter in Hl as [Hk Hin]. simpl in Hk. subst k.
  apply list_elem_of_fmap. by exists (id, r).
Qed.

Lemma lastRejection_Some (ps : list (Settled Error FindResponse)) err :
  lastRejection ps = Some err → Rejected err ∈ ps.
Proof.
  induction ps as [|p ps IH]; simpl; [done|].
  destruct (lastRejection ps) as [e'|].
  - intros [= <-]. right. by apply IH.
  - destruct p as [found|e']; [done|]. intros [= <-]. by left.
Qed.

Lemma lastRejection_None (ps : list (Settled Error FindResponse)) e :
  lastRejection ps = None → Rejected e ∉ ps.
Proof.
  induction ps as [|p ps IH]; simpl; intros Hnone Hin.
  - by apply not_elem_of_nil in Hin.
  - destruct (lastRejection ps) as [e'|]; [done|].
    destruct p as [found|e']; [|done].
    apply elem_of_cons in Hin as [[=]|Hin]. by apply IH.
Qed.

Lemma lastRejection_elem_of (ps : list (Settled Error FindResponse)) e :
  Rejected e ∈ ps → ∃ err, lastRejection ps = Some err ∧ Rejected err ∈ ps.
Proof.
  intros Hin. destruct (lastRejection ps) as [err|] eqn:Hps.
  - exists err. split; [done|]. by apply lastRejection_Some.
  - by apply (lastRejection_None _ e) in Hps.
Qed.

(** The log of an aggregation shows one call per id, in the order of the
    ids. *)
Lemma findCalls_calls client (l : list string)
    (outcomes : list (Settled Error FindResponse)) :
  length outcomes = length l →
  (findCalls client l outcomes).*1
  = (fun id => CallFind client (findOptionsFor id)) <$> l.
Proof.
  unfold findCalls. revert outcomes.
  induction l as [|id l IH]; intros [|p ps] Hlen; simpl in *; try done.
  f_equal. apply IH. lia.
Qed.

(** C8.  When [getClients] hands back no alerts client, the handler answers
    with status 404 (and no payload); it returns no statuses object, and the
    only call it has made is the one to [getClients]: no fetch. *)
Theorem handler_without_alerts_client_404
    request (e : Env) (log : list (Call * option Error)) clients e1 :
  getClients (legacy request) e = (Resolved clients, e1) →
  alertsClient clients = None →
  handler request (mkWorld e log) =
  (Resolved (ReturnResponse {| source := None; statusCode := 404 |}),
   mkWorld e1 (log ++ [(CallGetClients (legacy request), None)])).
Proof.
  intros Hclients Hnone.
  unfold handler, bind at 1, invoke. simpl. rewrite Hclients.
  unfold bind, await. by rewrite Hnone.
Qed.

(** C4.  When the fetch of some id is rejected, the handler returns no
    statuses object at all but the error response
    [{ message, status_code }] with that status code, both read off
    [transformError] applied to the reason of a rejected fetch (the last one
    in call order); every id has been fetched exactly once. *)
Theorem handler_fails_when_one_fetch_fails
    request (e : Env) (log : list (Call * option Error)) clients e1 ac
    (k : nat) id reason :
  getClients (legacy request) e = (Resolved clients, e1) →
  alertsClient clients = Some ac →
  ids (query request) !! k = Some id →
  (fetchAll (savedObjectsClient clients) (ids (query request)) e1).1 !! k
    = Some (Rejected reason) →
  ∃ err,
    Rejected err
      ∈ (fetchAll (savedObjectsClient clients) (ids (query request)) e1).1
    ∧ lastRejection
        (fetchAll (savedObjectsClient clients) (ids (query request)) e1).1
      = Some err
    ∧ handler request (mkWorld e log) =
      (Resolved
         (ReturnResponse
            {| source :=
                 Some {| message := error_message (transformError err);
                         status_code := error_statusCode (transformError err) |};
               statusCode := error_statusCode (transformError err) |}),
       mkWorld
         (fetchAll (savedObjectsClient clients) (ids (query request)) e1).2
         (log ++ (CallGetClients (legacy request), None)
              :: findCalls (savedObjectsClient clients) (ids (query request))
                   (fetchAll (savedObjectsClient clients)
                      (ids (query request)) e1).1))
    ∧ (findCalls (savedObjectsClient clients) (ids (query request))
         (fetchAll (savedObjectsClient clients) (ids (query request)) e1).1).*1
      = (fun id => CallFind (savedObjectsClient clients) (findOptionsFor id))
          <$> ids (query request).
Proof.
  intros Hclients Hac _ Hk.
  destruct (lastRejection_elem_of
              (fetchAll (savedObjectsClient clients) (ids (query request)) e1).1
              reason) as (err & Hlast & Hin).
  { by eapply list_elem_of_lookup_2. }
  exists err. split; [done|]. split; [done|]. split.
  - rewrite (handler_run _ _ _ _ _ _ Hclients Hac).
    rewrite (fold_commit_rejected _ _ err); [done|].
    rewrite snd_zip; [done|]. by rewrite fetchAll_length.
  - apply findCalls_calls. by rewrite fetchAll_length.
Qed.

(** The run of the handler when every fetch was resolved. *)
Lemma handler_run_resolved
    request (e : Env) (log : list (Call * option Error)) clients e1 ac responses e2 :
  getClients (legacy request) e = (Resolved clients, e1) →
  alertsClient clients = Some ac →
  fetchAll (savedObjectsClient clients) (ids (query request)) e1
    = (Resolved <$> responses, e2) →
  handler request (mkWorld e log) =
  (Resolved
     (ReturnStatuses
        (fold_left (fun m p => <[p.1 := ruleStatusOf p.2]> m)
           (zip (ids (query request)) responses) ∅)),
   mkWorld e2
     (log ++ (CallGetClients (legacy request), None)
          :: findCalls (savedObjectsClient clients) (ids (query request))
                   (Resolved <$> responses))).
Proof.
  intros Hclients Hac Hfetch.
  rewrite (handler_run _ _ _ _ _ _ Hclients Hac), Hfetch. simpl.
  by rewrite zip_resolved, fold_commit_resolved.
Qed.

Lemma fetched_ids client (l : list string) e1 responses e2 :
  fetchAll client l e1 = (Resolved <$> responses, e2) →
  (zip l responses).*1 = l.
Proof.
  intros Hfetch. apply fst_zip.
  pose proof (fetchAll_length client l e1) as Hlen.
  rewrite Hfetch in Hlen. simpl in Hlen. rewrite length_fmap in Hlen. lia.
Qed.

(** When every fetch was resolved the log shows one successful call per
    id. *)
Lemma findCalls_resolved client (l : list string) e1 responses e2 :
  fetchAll client l e1 = (Resolved <$> responses, e2) →
  findCalls client l (Resolved <$> responses) =
  (fun id => (CallFind client (findOptionsFor id), None)) <$> l.
Proof.
  intros Hfetch.
  pose proof (fetchAll_length client l e1) as Hlen.
  rewrite Hfetch in Hlen. simpl in Hlen. rewrite length_fmap in Hlen.
  clear Hfetch. revert responses Hlen. unfold findCalls.
  induction l as [|id l IH]; intros [|r rs] Hlen; simpl in *; try done.
  f_equal. apply IH. lia.
Qed.

Lemma distinct_ids_set (l : list string) :
  list_to_set (C := gset string) (remove_dups l) = list_to_set l.
Proof.
  apply set_eq. intros x.
  by rewrite !elem_of_list_to_set, elem_of_remove_dups.
Qed.

(** C3.  With the alerts client there and every fetch resolved, the handler
    returns a statuses object whose keys are exactly the ids of the query,
    one entry per distinct id, and the entry of an id is the one built from
    the last page fetched for it: a later occurrence of an id overwrites the
    earlier one. *)
Theorem statuses_keys_are_the_distinct_ids
    request (e : Env) (log : list (Call * option Error)) clients e1 ac responses e2 :
  getClients (legacy request) e = (Resolved clients, e1) →
  alertsClient clients = Some ac →
  fetchAll (savedObjectsClient clients) (ids (query request)) e1
    = (Resolved <$> responses, e2) →
  ∃ statuses : gmap string RuleStatus,
    handler request (mkWorld e log) =
      (Resolved (ReturnStatuses statuses),
       mkWorld e2
         (log ++ (CallGetClients (legacy request), None)
              :: findCalls (savedObjectsClient clients) (ids (query request))
                   (Resolved <$> responses)))
    ∧ dom statuses = list_to_set (ids (query request))
    ∧ size statuses = length (remove_dups (ids (query request)))
    ∧ ∀ id,
        statuses !! id =
        ruleStatusOf <$> lastFetched id (zip (ids (query request)) responses).
Proof.
  intros Hclients Hac Hfetch.
  eexists. split; [by eapply handler_run_resolved|].
  split; [|split].
  - rewrite dom_inserted, dom_empty_L, (right_id_L ∅ (∪)).
    by erewrite fetched_ids.
  - rewrite <- size_dom, dom_inserted, dom_empty_L, (right_id_L ∅ (∪)).
    erewrite fetched_ids by done.
    rewrite <- distinct_ids_set.
    apply size_list_to_set, NoDup_remove_dups.
  - intros id. rewrite lookup_inserted, lookup_empty.
    by destruct (lastFetched id _).
Qed.

(** C2.  With the alerts client there and every fetch resolved, an id whose
    (last) fetch came back with no record still has an entry, with an absent
    current status and no failures. *)
Theorem empty_page_gives_absent_status
    request (e : Env) (log : list (Call * option Error)) clients e1 ac responses e2 id found :
  getClients (legacy request) e = (Resolved clients, e1) →
  alertsClient clients = Some ac →
  fetchAll (savedObjectsClient clients) (ids (query request)) e1
    = (Resolved <$> responses, e2) →
  lastFetched id (zip (ids (query request)) responses) = Some found →
  saved_objects found = [] →
  ∃ statuses : gmap string RuleStatus,
    handler request (mkWorld e log) =
      (Resolved (ReturnStatuses statuses),
       mkWorld e2
         (log ++ (CallGetClients (legacy request), None)
              :: findCalls (savedObjectsClient clients) (ids (query request))
                   (Resolved <$> responses)))
    ∧ id ∈ ids (query request)
    ∧ statuses !! id = Some {| current_status := None; failures := [] |}.
Proof.
  intros Hclients Hac Hfetch Hlast Hempty.
  eexists. split; [by eapply handler_run_resolved|]. split.
  - apply lastFetched_elem_of in Hlast. by erewrite fetched_ids in Hlast.
  - rewrite lookup_inserted, Hlast. unfold ruleStatusOf. by rewrite Hempty.
Qed.

Lemma descending_tail (newest : SavedObject) older :
  descending (newest :: older) → descending older.
Proof. unfold descending. by inversion 1. Qed.

(** C1.  With the alerts client there and every fetch resolved, take an id
    whose (last) fetch came back with a non-empty page, most recent first,
    of no more records than the page size asked for.  The fetch for that id
    asked for a page of 6, sorted by [statusDate], descending.  The record at
    position 0 is the entry's current status, and the records at positions
    1 to 5 (at most five of them) are its failures, in the order of the
    page, so most recent first: both in snake case. *)
Theorem current_is_newest_failures_are_the_rest
    request (e : Env) (log : list (Call * option Error)) clients e1 ac responses e2
    id found newest older :
  getClients (legacy request) e = (Resolved clients, e1) →
  alertsClient clients = Some ac →
  fetchAll (savedObjectsClient clients) (ids (query request)) e1
    = (Resolved <$> responses, e2) →
  lastFetched id (zip (ids (query request)) responses) = Some found →
  saved_objects found = newest :: older →
  descending (saved_objects found) →
  Z.of_nat (length (saved_objects found)) ≤ perPage (findOptionsFor id) →
  ∃ statuses : gmap string RuleStatus,
    handler request (mkWorld e log) =
      (Resolved (ReturnStatuses statuses),
       mkWorld e2
         (log ++ (CallGetClients (legacy request), None)
              :: findCalls (savedObjectsClient clients) (ids (query request))
                   (Resolved <$> responses)))
    ∧ (CallFind (savedObjectsClient clients)
         {| type := ruleStatusSavedObjectType;
            perPage := 6;
            sortField := "statusDate";
            sortOrder := "desc";
            search := id;
            searchFields := ["alertId"] |}, None)
      ∈ findCalls (savedObjectsClient clients) (ids (query request))
                   (Resolved <$> responses)
    ∧ statuses !! id =
      Some {| current_status := Some (snakeCaseKeys (attributes newest));
              failures :=
                (fun r => Some (snakeCaseKeys (attributes r))) <$> older |}
    ∧ (length older ≤ 5)%nat
    ∧ older = take 5 (drop 1 (saved_objects found))
    ∧ (∀ i : nat, older !! i = saved_objects found !! S i)
    ∧ descending older.
Proof.
  intros Hclients Hac Hfetch Hlast Hpage Hsorted Hsize.
  assert (length older ≤ 5)%nat as Hfive.
  { rewrite Hpage in Hsize. simpl in Hsize. lia. }
  eexists. split; [by eapply handler_run_resolved|].
  repeat split.
  - apply lastFetched_elem_of in Hlast. erewrite fetched_ids in Hlast by done.
    erewrite findCalls_resolved by done.
    apply list_elem_of_fmap. by exists id.
  - rewrite lookup_inserted, Hlast. unfold ruleStatusOf. by rewrite Hpage.
  - done.
  - rewrite Hpage. simpl. by rewrite take_ge.
  - intros i. by rewrite Hpage.
  - rewrite Hpage in Hsorted. by eapply descending_tail.
Qed.

End Run.

(** *** The theorems at work on the example store *)

Section Examples.

Import Demo.

Local Existing Instance Demo.domain.
Local Existing Instance Demo.collaborators.

(** Without the alerting plugin: 404, and the store is not touched. *)
Lemma handler_without_alerts_client_404_witness :
  handler (requestFor false ["rule-1"; "rule-2"]) start =
  (Resolved (ReturnResponse {| source := None; statusCode := 404 |}),
   mkWorld 0%nat [(CallGetClients false, None)]).
Proof.
  apply (handler_without_alerts_client_404
           (requestFor false ["rule-1"; "rule-2"]) 0%nat []
           (clients false) 0%nat);
    reflexivity.
Defined.

(** The fetch for "rule-9" is rejected: nothing of "rule-1" or "rule-2"
    comes back, only the error, and the three ids were fetched once each. *)
Lemma handler_fails_when_one_fetch_fails_witness :
  handler (requestFor true ["rule-1"; "rule-9"; "rule-2"]) start =
  (Resolved
     (ReturnResponse
        {| source := Some {| message := "index_not_found_exception";
                             status_code := 500 |};
           statusCode := 500 |}),
   mkWorld 3%nat
     [(CallGetClients true, None);
      (CallFind () (findOptionsFor "rule-1"), None);
      (CallFind () (findOptionsFor "rule-9"),
       Some "index_not_found_exception");
      (CallFind () (findOptionsFor "rule-2"), None)]).
Proof.
  destruct (handler_fails_when_one_fetch_fails
              (requestFor true ["rule-1"; "rule-9"; "rule-2"]) 0%nat []
              (clients true) 0%nat ()
              1%nat "rule-9" "index_not_found_exception")
    as (err & _ & Hlast & Hrun & _); [reflexivity..|].
  injection Hlast as <-. exact Hrun.
Defined.

(** "rule-3" is asked for twice and its status changes in between: there is
    one entry for it, built from the second fetch. *)
Lemma statuses_keys_are_the_distinct_ids_witness :
  ∃ statuses : gmap string RuleStatus,
    handler (requestFor true ["rule-3"; "rule-1"; "rule-3"]) start =
      (Resolved (ReturnStatuses statuses),
       mkWorld 3%nat
         [(CallGetClients true, None);
          (CallFind () (findOptionsFor "rule-3"), None);
          (CallFind () (findOptionsFor "rule-1"), None);
          (CallFind () (findOptionsFor "rule-3"), None)])
    ∧ dom statuses = list_to_set ["rule-3"; "rule-1"; "rule-3"]
    ∧ size statuses = 2%nat
    ∧ statuses !! "rule-3" =
      Some {| current_status := Some ("r3", 2); failures := [] |}
    ∧ statuses !! "rule-7" = None.
Proof.
  destruct (statuses_keys_are_the_distinct_ids
              (requestFor true ["rule-3"; "rule-1"; "rule-3"]) 0%nat []
              (clients true) 0%nat ()
              [page [record "r3" 0]; page [r1a; r1b; r1c]; page [record "r3" 2]]
              3%nat)
    as (statuses & Hrun & Hdom & Hsize & Hlookup); [reflexivity..|].
  exists statuses. split; [exact Hrun|]. split; [exact Hdom|].
  split; [exact Hsize|]. split; rewrite Hlookup; reflexivity.
Defined.

(** The scenario of the specification, for "rule-2": no record, so an
    absent current status and no failures. *)
Lemma empty_page_gives_absent_status_witness :
  ∃ statuses : gmap string RuleStatus,
    handler (requestFor true ["rule-1"; "rule-2"]) start =
      (Resolved (ReturnStatuses statuses),
       mkWorld 2%nat
         [(CallGetClients true, None);
          (CallFind () (findOptionsFor "rule-1"), None);
          (CallFind () (findOptionsFor "rule-2"), None)])
    ∧ "rule-2" ∈ ["rule-1"; "rule-2"]
    ∧ statuses !! "rule-2" = Some {| current_status := None; failures := [] |}.
Proof.
  apply (empty_page_gives_absent_status
           (requestFor true ["rule-1"; "rule-2"]) 0%nat []
           (clients true) 0%nat ()
           [page [r1a; r1b; r1c]; page []] 2%nat "rule-2" (page []));
    reflexivity.
Defined.

(** The scenario of the specification, for "rule-1": three records, the
    newest is the current status and the two others are the failures. *)
Lemma current_is_newest_failures_are_the_rest_witness :
  ∃ statuses : gmap string RuleStatus,
    handler (requestFor true ["rule-1"; "rule-2"]) start =
      (Resolved (ReturnStatuses statuses),
       mkWorld 2%nat
         [(CallGetClients true, None);
          (CallFind () (findOptionsFor "rule-1"), None);
          (CallFind () (findOptionsFor "rule-2"), None)])
    ∧ statuses !! "rule-1" =
      Some {| current_status := Some ("r1a", 30);
              failures := [Some ("r1b", 20); Some ("r1c", 10)] |}.
Proof.
  destruct (current_is_newest_failures_are_the_rest
              (requestFor true ["rule-1"; "rule-2"]) 0%nat []
              (clients true) 0%nat ()
              [page [r1a; r1b; r1c]; page []] 2%nat "rule-1"
              (page [r1a; r1b; r1c]) r1a [r1b; r1c])
    as (statuses & Hrun & _ & Hlookup & _).
  - reflexivity.
  - reflexivity.
  - reflexivity.
  - reflexivity.
  - reflexivity.
  - unfold descending. simpl.
    repeat (constructor; simpl; try lia).
  - simpl. lia.
  - exists statuses. split; [exact Hrun | exact Hlookup].
Defined.

End Examples.

End RuleStatusProps.


(** ** The annotation routes *)

Module AnnotationsProps.

Import Annotations.

Section Run.

Context {D : Domain} {C : Collaborators}.

Implicit Types (w : World (Thrown Foreign) Env Call).

(** Runs a route symbolically: every oracle answer is split into its cases. *)
Ltac split_call :=
  match goal with
  | |- context [isAnnotationsFeatureAvailable ?c ?e] =>
      destruct (isAnnotationsFeatureAvailable c e) as [[[|]|?] ?]
  | |- context [annotationServiceProvider ?c ?e] =>
      destruct (annotationServiceProvider c e) as [[?|?] ?]
  | |- context [getCurrentUser ?r ?e] =>
      destruct (getCurrentUser r e) as [[?|?] ?]
  | |- context [getAnnotations ?s ?a ?e] =>
      destruct (getAnnotations s a e) as [[?|?] ?]
  | |- context [indexAnnotation ?s ?a ?u ?e] =>
      destruct (indexAnnotation s a u e) as [[?|?] ?]
  | |- context [deleteAnnotation ?s ?a ?e] =>
      destruct (deleteAnnotation s a e) as [[?|?] ?]
  end.

Ltac run_route :=
  unfold getAnnotationsRoute, indexAnnotationRoute, deleteAnnotationRoute,
    try_catch, bind, invoke, invokeSync, await, ret, throw;
  simpl; repeat (split_call; simpl).

(** C5.  When the feature check answers [false], the upsert route answers
    with the wrapped bad-request error of the fixed message, whatever the
    request, and so does the delete route; the only call either has made is
    the feature check, which is not a call to the annotation service. *)
Theorem feature_unavailable_is_bad_request
    context (upsert : Request IndexAnnotationBody ())
    (delete : Request () DeleteParams) (e : Env)
    (log : list (Call * option (Thrown Foreign))) e1 :
  isAnnotationsFeatureAvailable (callAsCurrentUser context) e
    = (Resolved false, e1) →
  getAnnotationsFeatureUnavailableErrorMessage =
    Boom 400
      (translate
         "xpack.ml.routes.annotations.annotationsFeatureUnavailableErrorMessage"
         "Index and aliases required for the annotations feature have not been created or are not accessible for the current user.")
  ∧ indexAnnotationRoute context upsert (mkWorld e log) =
    (Resolved
       (customError (wrapError getAnnotationsFeatureUnavailableErrorMessage)),
     mkWorld e1
       (log ++ [(CallIsAnnotationsFeatureAvailable (callAsCurrentUser context),
                 None)]))
  ∧ deleteAnnotationRoute context delete (mkWorld e log) =
    (Resolved
       (customError (wrapError getAnnotationsFeatureUnavailableErrorMessage)),
     mkWorld e1
       (log ++ [(CallIsAnnotationsFeatureAvailable (callAsCurrentUser context),
                 None)]))
  ∧ isServiceCall (CallIsAnnotationsFeatureAvailable (callAsCurrentUser context))
    = false.
Proof.
  intros Hcheck. split; [reflexivity|].
  unfold indexAnnotationRoute, deleteAnnotationRoute, try_catch, bind, invoke,
    await, throw, ret.
  simpl. rewrite Hcheck. simpl. done.
Qed.

(** C6.  When the feature is available and the security plugin resolves no
    current user, the upsert route does not fail on that: it calls
    [indexAnnotation] with the request body and [ANNOTATION_USER_UNKNOWN] as
    the user name, and its answer is the one that call decides, [ok] with
    the service's answer when it resolves. *)
Theorem unresolved_user_becomes_unknown
    context (request : Request IndexAnnotationBody ()) (e : Env)
    (log : list (Call * option (Thrown Foreign))) e1 service e2 e3 :
  isAnnotationsFeatureAvailable (callAsCurrentUser context) e
    = (Resolved true, e1) →
  annotationServiceProvider context e1 = (Resolved service, e2) →
  getCurrentUser request e2 = (Resolved None, e3) →
  indexAnnotationRoute context request (mkWorld e log) =
  (Resolved
     match (indexAnnotation service (body request) ANNOTATION_USER_UNKNOWN e3).1
     with
     | Resolved resp => ok resp
     | Rejected err => customError (wrapError err)
     end,
   mkWorld
     (indexAnnotation service (body request) ANNOTATION_USER_UNKNOWN e3).2
     (log ++
      [(CallIsAnnotationsFeatureAvailable (callAsCurrentUser context), None);
       (CallAnnotationServiceProvider context, None);
       (CallGetCurrentUser request, None);
       (CallIndexAnnotation service (body request) ANNOTATION_USER_UNKNOWN,
        failure
          (indexAnnotation service (body request) ANNOTATION_USER_UNKNOWN e3).1)])).
Proof.
  intros Hcheck Hservice Huser.
  unfold indexAnnotationRoute, try_catch, bind, invoke, invokeSync, await, ret.
  simpl. rewrite Hcheck. simpl. rewrite Hservice. simpl. rewrite Huser. simpl.
  destruct (indexAnnotation service (body request) ANNOTATION_USER_UNKNOWN e3)
    as [[resp|err] e4]; simpl; by rewrite <- !app_assoc.
Qed.

(** A user with an empty name counts as unresolved too. *)
Lemma stringOr_empty fallback : stringOr (Some "") fallback = fallback.
Proof. reflexivity. Qed.

(** Closes [wrapsDelegateErrors] on a log that is written out. *)
Ltac check_log :=
  let c := fresh "c" in
  let err := fresh "err" in
  let Hin := fresh "Hin" in
  intros c err Hin;
  repeat (apply elem_of_cons in Hin as [Hin|Hin];
          [ inversion Hin; subst; split; reflexivity | ]);
  by apply not_elem_of_nil in Hin.

Ltac finish_run :=
  eexists _, _; split;
  [ eexists; rewrite <- ?app_assoc; simpl; reflexivity | check_log ].

(** C7.  Each of the three routes always answers, and whenever a call to a
    delegate failed during its run, the answer is [customError] of
    [wrapError] applied to the reason of that failure, and the failed call
    is the last call of the run: nothing is tried again, nothing is tried
    instead. *)
Theorem delegate_errors_are_wrapped
    context (search : Request GetAnnotationsBody ())
    (upsert : Request IndexAnnotationBody ())
    (delete : Request () DeleteParams) w :
  (∃ result new,
      ranTo (getAnnotationsRoute context search) w result new
      ∧ wrapsDelegateErrors result new)
  ∧ (∃ result new,
        ranTo (indexAnnotationRoute context upsert) w result new
        ∧ wrapsDelegateErrors result new)
  ∧ (∃ result new,
        ranTo (deleteAnnotationRoute context delete) w result new
        ∧ wrapsDelegateErrors result new).
Proof.
  unfold ranTo. destruct w as [e log]. repeat split.
  - run_route; finish_run.
  - run_route; finish_run.
  - run_route; finish_run.
Qed.

End Run.

(** *** The theorems at work on the example setup *)

Section Examples.

Import Demo.

Local Existing Instance Demo.domain.
Local Existing Instance Demo.collaborators.

(** The annotations index is out of reach: both routes answer 400 with the
    fixed message, and the service is not called. *)
Lemma feature_unavailable_is_bad_request_witness :
  let setup := {| available := false;
                  signedIn := Some {| username := "elastic" |};
                  serviceUp := true |} in
  let refusal :=
    {| wrapped_message :=
         "Index and aliases required for the annotations feature have not been created or are not accessible for the current user.";
       wrapped_statusCode := 400 |} in
  indexAnnotationRoute () (upsert "spike") (start setup) =
    (Resolved (customError refusal),
     mkWorld setup [(CallIsAnnotationsFeatureAvailable (), None)])
  ∧ deleteAnnotationRoute () (delete "a-1") (start setup) =
    (Resolved (customError refusal),
     mkWorld setup [(CallIsAnnotationsFeatureAvailable (), None)]).
Proof.
  intros setup refusal.
  destruct (feature_unavailable_is_bad_request
              (C := Demo.collaborators)
              () (upsert "spike") (delete "a-1") setup [] setup)
    as (_ & Hupsert & Hdelete & _); [reflexivity|].
  split; [exact Hupsert | exact Hdelete].
Defined.

(** Nobody is signed in: the annotation is indexed for "<user unknown>". *)
Lemma unresolved_user_becomes_unknown_witness :
  let setup := {| available := true; signedIn := None; serviceUp := true |} in
  indexAnnotationRoute () (upsert "spike") (start setup) =
  (Resolved (ok "<user unknown>: spike"),
   mkWorld setup
     [(CallIsAnnotationsFeatureAvailable (), None);
      (CallAnnotationServiceProvider (), None);
      (CallGetCurrentUser (upsert "spike"), None);
      (CallIndexAnnotation () "spike" "<user unknown>", None)]).
Proof.
  intros setup.
  apply (unresolved_user_becomes_unknown
           (C := Demo.collaborators)
           () (upsert "spike") setup [] setup () setup setup);
    reflexivity.
Defined.

(** The service is down: the upsert route answers with the wrapped reason
    and stops at the call that failed. *)
Example upsert_with_service_down :
  let setup := {| available := true; signedIn := None; serviceUp := false |} in
  indexAnnotationRoute () (upsert "spike") (start setup) =
  (Resolved
     (customError {| wrapped_message := "no_shard_available";
                     wrapped_statusCode := 500 |}),
   mkWorld setup
     [(CallIsAnnotationsFeatureAvailable (), None);
      (CallAnnotationServiceProvider (), None);
      (CallGetCurrentUser (upsert "spike"), None);
      (CallIndexAnnotation () "spike" "<user unknown>",
       Some (Other "no_shard_available"))]).
Proof. reflexivity. Qed.

End Examples.

End AnnotationsProps.

(** ** [isValidJson] *)

Module ValidJsonProps.

Import ValidJson.

Section Run.

Context {R : Runtime}.

Implicit Types (value ws rest : JsString) (c : N).
Implicit Types (w : World SyntaxError () Call).

Lemma trimStart_whitespace ws rest :
  Forall (fun c => isWhiteSpace c = true) ws →
  trimStart (ws ++ rest) = trimStart rest.
Proof.
  induction 1 as [|c ws Hc _ IH]; simpl; [done|]. by rewrite Hc.
Qed.

Lemma trimStart_snoc value c :
  isWhiteSpace c = false → trimStart (value ++ [c]) = trimStart value ++ [c].
Proof.
  intros Hc. induction value as [|c' value IH]; simpl.
  - by rewrite Hc.
  - by destruct (isWhiteSpace c').
Qed.

Lemma trimEnd_cons c rest :
  isWhiteSpace c = false → trimEnd (c :: rest) = c :: trimEnd rest.
Proof.
  intros Hc. unfold trimEnd. simpl.
  by rewrite trimStart_snoc, rev_unit.
Qed.

(** A string of whitespace trims to the empty string. *)
Lemma trim_whitespace value :
  Forall (fun c => isWhiteSpace c = true) value → trim value = [].
Proof.
  intros Hws. unfold trim.
  rewrite <- (app_nil_r value), trimStart_whitespace by done. reflexivity.
Qed.

(** Otherwise the trimmed string starts with the first character that is
    not whitespace. *)
Lemma trim_first ws c rest :
  Forall (fun c => isWhiteSpace c = true) ws →
  isWhiteSpace c = false →
  trim (ws ++ c :: rest) = c :: trimEnd rest.
Proof.
  intros Hws Hc. unfold trim. rewrite trimStart_whitespace by done.
  simpl. rewrite Hc. by apply trimEnd_cons.
Qed.

(** Every string is whitespace only, or has a first character that is
    not. *)
Lemma whitespace_or_first value :
  Forall (fun c => isWhiteSpace c = true) value
  ∨ ∃ ws c rest,
      value = ws ++ c :: rest
      ∧ Forall (fun c => isWhiteSpace c = true) ws
      ∧ isWhiteSpace c = false.
Proof.
  induction value as [|c value IH]; [by left|].
  destruct (isWhiteSpace c) eqn:Hc.
  - destruct IH as [Hall|(ws & c' & rest & -> & Hws & Hc')].
    + left. by constructor.
    + right. exists (c :: ws), c', rest. repeat split; [|done]. by constructor.
  - right. by exists [], c, value.
Qed.

Lemma isValidJson_blank value w :
  Forall (fun c => isWhiteSpace c = true) value →
  isValidJson value w = (Resolved true, w).
Proof.
  intros Hws. unfold isValidJson.
  destruct value as [|c value]; [done|].
  rewrite trim_whitespace by done. reflexivity.
Qed.

Lemma isValidJson_other ws c rest w :
  Forall (fun c => isWhiteSpace c = true) ws →
  isWhiteSpace c = false →
  c ≠ 123%N → c ≠ 91%N →
  isValidJson (ws ++ c :: rest) w = (Resolved false, w).
Proof.
  intros Hws Hc Hbrace Hbracket. unfold isValidJson.
  rewrite trim_first by done.
  destruct ws; simpl;
    rewrite !bool_decide_eq_false_2 by congruence; reflexivity.
Qed.

Lemma isValidJson_open ws c rest w :
  Forall (fun c => isWhiteSpace c = true) ws →
  c = 123%N ∨ c = 91%N →
  trim (ws ++ c :: rest) = c :: trimEnd rest
  ∧ isValidJson (ws ++ c :: rest) w =
    (Resolved
       match JSON_parse (c :: trimEnd rest) with
       | Resolved _ => true
       | Rejected _ => false
       end,
     mkWorld (env w)
       (calls w ++ [(CallJSON_parse (c :: trimEnd rest),
                     failure (JSON_parse (c :: trimEnd rest)))])).
Proof.
  intros Hws Hc.
  assert (isWhiteSpace c = false) as Hblack.
  { by destruct Hc as [-> | ->]. }
  assert (bool_decide (Some c = Some 123%N)
          || bool_decide (Some c = Some 91%N) = true) as Hopen.
  { by destruct Hc as [-> | ->]. }
  split; [by apply trim_first|].
  unfold isValidJson. rewrite trim_first by done.
  destruct ws; simpl; rewrite Hopen;
    unfold try_catch, bind, invokeSync, ret; simpl;
    destruct (JSON_parse (c :: trimEnd rest)); reflexivity.
Qed.

(** C9.  [isValidJson] answers [true] on every empty or whitespace-only
    string, and [false] on every string whose first character that is not
    whitespace is neither an opening brace (code unit 123) nor an opening
    bracket (code unit 91), whatever [JSON.parse] would make of it: in both
    cases the log is left as it was, so nothing has been parsed.  When that
    first character is a brace or a bracket the trimmed string is given to
    [JSON.parse], once, and the answer is whether it parsed.  And a run that
    has parsed anything is a run on such a string. *)
Theorem isValidJson_parses_only_braces_and_brackets w :
  (∀ value,
      Forall (fun c => isWhiteSpace c = true) value →
      isValidJson value w = (Resolved true, w))
  ∧ (∀ ws c rest,
        Forall (fun c => isWhiteSpace c = true) ws →
        isWhiteSpace c = false →
        c ≠ 123%N → c ≠ 91%N →
        isValidJson (ws ++ c :: rest) w = (Resolved false, w))
  ∧ (∀ ws c rest,
        Forall (fun c => isWhiteSpace c = true) ws →
        c = 123%N ∨ c = 91%N →
        trim (ws ++ c :: rest) = c :: trimEnd rest
        ∧ isValidJson (ws ++ c :: rest) w =
          (Resolved
             match JSON_parse (c :: trimEnd rest) with
             | Resolved _ => true
             | Rejected _ => false
             end,
           mkWorld (env w)
             (calls w ++ [(CallJSON_parse (c :: trimEnd rest),
                           failure (JSON_parse (c :: trimEnd rest)))])))
  ∧ (∀ value,
        calls (isValidJson value w).2 ≠ calls w →
        ∃ c rest,
          (c = 123%N ∨ c = 91%N)
          ∧ trim value = c :: rest
          ∧ calls (isValidJson value w).2 =
            calls w ++ [(CallJSON_parse (trim value),
                         failure (JSON_parse (trim value)))]).
Proof.
  split; [intros; by apply isValidJson_blank|].
  split; [intros; by apply isValidJson_other|].
  split; [intros; by apply isValidJson_open|].
  intros value Hparsed.
  destruct (whitespace_or_first value)
    as [Hws|(ws & c & rest & -> & Hws & Hc)].
  { by rewrite isValidJson_blank in Hparsed. }
  destruct (decide (c = 123%N)) as [Hbrace|Hbrace];
    [|destruct (decide (c = 91%N)) as [Hbracket|Hbracket]].
  - destruct (isValidJson_open ws c rest w Hws (or_introl Hbrace))
      as [Htrim Hrun].
    exists c, (trimEnd rest). rewrite Hrun, Htrim. by repeat split; [left|..].
  - destruct (isValidJson_open ws c rest w Hws (or_intror Hbracket))
      as [Htrim Hrun].
    exists c, (trimEnd rest). rewrite Hrun, Htrim. by repeat split; [right|..].
  - by rewrite isValidJson_other in Hparsed.
Qed.

End Run.

(** *** The theorem at work on the example parser *)

Section Examples.

Import Demo.

Local Existing Instance Demo.runtime.

(** Blanks only are fine.  The number 42, the string a in quotes and the
    literal true all parse, yet [isValidJson] refuses them unparsed.  An
    object is parsed and accepted; a brace followed by rubbish is parsed and
    refused. *)
Lemma isValidJson_parses_only_braces_and_brackets_witness :
  isValidJson [32; 9; 10]%N start = (Resolved true, start)
  ∧ (JSON_parse (codeUnits "42") = Resolved "parsed"
     ∧ isValidJson (codeUnits " 42") start = (Resolved false, start))
  ∧ (JSON_parse [34; 97; 34]%N = Resolved "parsed"
     ∧ isValidJson [34; 97; 34]%N start = (Resolved false, start))
  ∧ (JSON_parse (codeUnits "true") = Resolved "parsed"
     ∧ isValidJson (codeUnits "true") start = (Resolved false, start))
  ∧ isValidJson (codeUnits " {} ") start =
    (Resolved true, mkWorld () [(CallJSON_parse (codeUnits "{}"), None)])
  ∧ isValidJson (codeUnits "{oops") start =
    (Resolved false,
     mkWorld () [(CallJSON_parse (codeUnits "{oops"),
                  Some "Unexpected token")]).
Proof.
  destruct (isValidJson_parses_only_braces_and_brackets (R := Demo.runtime)
              start) as (Hblank & Hother & Hopen & _).
  split; [apply Hblank; by repeat constructor|].
  split; [split; [reflexivity|]|].
  { apply (Hother [32%N] 52%N [50%N]); [by repeat constructor|done..]. }
  split; [split; [reflexivity|]|].
  { apply (Hother [] 34%N [97; 34]%N); [by repeat constructor|done..]. }
  split; [split; [reflexivity|]|].
  { apply (Hother [] 116%N (codeUnits "rue"));
      [by repeat constructor|done..]. }
  split.
  - destruct (Hopen [32%N] 123%N (codeUnits "} ")) as [_ Hrun];
      [by repeat constructor|by left|exact Hrun].
  - destruct (Hopen [] 123%N (codeUnits "oops")) as [_ Hrun];
      [by repeat constructor|by left|exact Hrun].
Defined.

End Examples.

End ValidJsonProps.

(** ** [toAngularJSON] *)

Module AngularJsonProps.

Import AngularJson.

Section Run.

Context {R : Runtime}.

Implicit Types (key : string) (value obj : Value) (tree : Json).
Implicit Types (serialize : string → Value → Settled JsError (option Json)).

(** The test on the first two characters is the test for the prefix. *)
Lemma charAt_dollars key :
  bool_decide (charAt key 0 = "$") && bool_decide (charAt key 1 = "$")
  = startsWithDollars key.
Proof.
  unfold startsWithDollars, charAt.
  destruct key as [|a [|b rest]]; cbn -[Ascii.ascii_dec].
  - reflexivity.
  - destruct (Ascii.ascii_dec "$" a) as [<-|Ha]; [reflexivity|].
    rewrite bool_decide_eq_false_2; [done|]. congruence.
  - destruct (Ascii.ascii_dec "$" a) as [<-|Ha].
    + destruct (Ascii.ascii_dec "$" b) as [<-|Hb]; [by destruct rest|].
      rewrite (bool_decide_eq_false_2 (String b "" = "$")); [done|].
      congruence.
    + rewrite bool_decide_eq_false_2; [done|]. congruence.
Qed.

Lemma toJsonReplacer_dollars key value :
  startsWithDollars key = true → toJsonReplacer key value = Undefined.
Proof. intros Hkey. unfold toJsonReplacer. by rewrite charAt_dollars, Hkey. Qed.

(** What the replacer hands back is the value itself, unless it is
    [undefined] or one of the three marker strings. *)
Lemma toJsonReplacer_cases key value :
  toJsonReplacer key value = Undefined
  ∨ (∃ marker, toJsonReplacer key value = Str marker)
  ∨ (toJsonReplacer key value = value
     ∧ startsWithDollars key = false
     ∧ ∀ h, value ≠ HostObject h).
Proof.
  unfold toJsonReplacer. rewrite charAt_dollars.
  destruct (startsWithDollars key); [by left|]. right.
  destruct (isWindow value) eqn:Hwindow; [left; by eexists|].
  destruct (truthy value && isTheDocument value) eqn:Hdocument;
    [left; by eexists|].
  destruct (isScope value); [left; by eexists|].
  right. repeat split. intros [|] ->; simpl in *; discriminate.
Qed.

Lemma elements_all (P : Json → Prop) serialize index items elements :
  P JNull →
  (∀ k v j, v ∈ items → serialize k v = Resolved (Some j) → P j) →
  serializeElements serialize index items = Resolved elements →
  Forall P elements.
Proof.
  intros Hnull. revert index elements.
  induction items as [|v items IH]; intros index elements Hitems; simpl.
  - intros [= <-]. constructor.
  - destruct (serialize (pretty index) v) as [element|] eqn:Hv; [|done].
    destruct (serializeElements serialize (S index) items) as [rest|] eqn:Hrest;
      [|done].
    intros [= <-]. constructor.
    + destruct element as [j|]; [|done]. eapply Hitems; [|done]. by left.
    + eapply IH; [|done]. intros k v' j Hin. apply Hitems. by right.
Qed.

Lemma members_all (P : string * Json → Prop) serialize props members :
  (∀ k v j, (k, v) ∈ props → serialize k v = Resolved (Some j) → P (k, j)) →
  serializeMembers serialize props = Resolved members →
  Forall P members.
Proof.
  revert members.
  induction props as [|[k v] props IH]; intros members Hprops; simpl.
  - intros [= <-]. constructor.
  - destruct (serialize k v) as [member|] eqn:Hv; [|done].
    destruct (serializeMembers serialize props) as [rest|] eqn:Hrest; [|done].
    assert (Forall P rest) as Hall.
    { eapply IH; [|done]. intros k' v' j Hin. apply Hprops. by right. }
    intros [= <-]. destruct member as [j|]; [|done].
    constructor; [|done]. eapply Hprops; [|done]. by left.
Qed.

Lemma forallb_of_Forall {A} (f : A → bool) (l : list A) :
  Forall (fun x => f x = true) l → forallb f l = true.
Proof. induction 1 as [|x l Hx _ IH]; simpl; [done|]. by rewrite Hx. Qed.

(** A property whose key starts with [$$] never makes it into the tree. *)
Lemma dollar_property_omitted stack key value tree :
  startsWithDollars key = true →
  SerializeJSONProperty stack toJsonReplacer key value ≠ Resolved (Some tree).
Proof.
  intros Hkey. destruct stack as [|stack]; simpl; [done|].
  by rewrite toJsonReplacer_dollars.
Qed.

(** Whatever [toJsonReplacer] lets through, no key of the tree starts with
    [$$], at any depth. *)
Lemma serialized_noDollarKeys stack key value tree :
  SerializeJSONProperty stack toJsonReplacer key value = Resolved (Some tree) →
  noDollarKeys tree = true.
Proof.
  revert key value tree.
  induction stack as [|stack IH]; intros key value tree; simpl; [done|].
  destruct (toJsonReplacer_cases key value)
    as [-> | [[marker ->] | (-> & _ & Hhost)]].
  - done.
  - by intros [= <-].
  - destruct value as [| |b|n|s|d|z|f fprops|h|items|props];
      try by intros [= <-].
    + intros [= <-]. simpl. by destruct (numberIsFinite n).
    + by destruct (Hhost h).
    + destruct (serializeElements _ 0 items) as [elements|] eqn:Hitems; [|done].
      intros [= <-]. simpl. apply forallb_of_Forall.
      eapply (elements_all (fun j => noDollarKeys j = true)); [done| |done].
      intros k v j _. apply IH.
    + destruct (serializeMembers _ props) as [members|] eqn:Hprops; [|done].
      intros [= <-]. simpl. apply forallb_of_Forall.
      eapply (members_all
                (fun member =>
                   negb (startsWithDollars member.1) && noDollarKeys member.2
                   = true)); [|done].
      intros k v j _ Hkv. simpl. apply andb_true_iff. split.
      * apply negb_true_iff.
        destruct (startsWithDollars k) eqn:Hk; [|done].
        by destruct (dollar_property_omitted stack k v j Hk).
      * by eapply IH.
Qed.

Lemma elements_resolve serialize index items :
  (∀ k v, v ∈ items → ∃ r, serialize k v = Resolved r) →
  ∃ elements, serializeElements serialize index items = Resolved elements.
Proof.
  revert index. induction items as [|v items IH]; intros index Hitems; simpl.
  - by eexists.
  - destruct (Hitems (pretty index) v) as [r ->]; [by left|].
    destruct (IH (S index)) as [elements ->]; [|by eexists].
    intros k v' Hin. apply Hitems. by right.
Qed.

Lemma members_resolve serialize props :
  (∀ k v, (k, v) ∈ props → ∃ r, serialize k v = Resolved r) →
  ∃ members, serializeMembers serialize props = Resolved members.
Proof.
  induction props as [|[k v] props IH]; intros Hprops; simpl.
  - by eexists.
  - destruct (Hprops k v) as [r ->]; [by left|].
    destruct IH as [members ->]; [|by eexists].
    intros k' v' Hin. apply Hprops. by right.
Qed.

Lemma depth_item items (item : Value) :
  item ∈ items →
  (depth item ≤ foldr (fun item d => Nat.max (depth item) d) 0 items)%nat.
Proof.
  induction 1 as [item items|item item' items _ IH]; simpl; lia.
Qed.

Lemma depth_prop (props : list (string * Value)) k v :
  (k, v) ∈ props →
  (depth v ≤ foldr (fun prop d => Nat.max (depth prop.2) d) 0 props)%nat.
Proof.
  intros Hin. remember (k, v) as prop eqn:Hprop. revert Hprop.
  induction Hin as [prop props|prop prop' props _ IH]; intros ->; simpl.
  - lia.
  - specialize (IH eq_refl). lia.
Qed.

(** With room on the stack for the nesting of a serializable value,
    serialization returns. *)
Lemma serialize_returns stack key value :
  (depth value < stack)%nat →
  serializable value = true →
  ∃ r, SerializeJSONProperty stack toJsonReplacer key value = Resolved r.
Proof.
  revert key value.
  induction stack as [|stack IH]; intros key value Hdepth Hvalue; [lia|].
  simpl.
  destruct (toJsonReplacer_cases key value)
    as [-> | [[marker ->] | (-> & _ & Hhost)]]; [by eexists..|].
  destruct value as [| |b|n|s|d|z|f fprops|h|items|props];
    try (eexists; reflexivity).
  - discriminate Hvalue.
  - by destruct (Hhost h).
  - destruct (elements_resolve (SerializeJSONProperty stack toJsonReplacer)
                0 items) as [elements ->]; [|by eexists].
    intros k v Hin. simpl in Hvalue. rewrite forallb_forall in Hvalue.
    apply IH; [|by apply Hvalue, list_elem_of_In].
    apply depth_item in Hin. simpl in Hdepth. lia.
  - destruct (members_resolve (SerializeJSONProperty stack toJsonReplacer)
                props) as [members ->]; [|by eexists].
    intros k v Hin. simpl in Hvalue.
    apply andb_true_iff in Hvalue as [_ Hprops].
    rewrite forallb_forall in Hprops.
    apply IH; [|by apply (Hprops (k, v)), list_elem_of_In].
    apply depth_prop in Hin. simpl in Hdepth. lia.
Qed.

(** What serializes to [undefined] is [undefined] itself, a symbol or a
    function, or sits under a key that starts with [$$]. *)
Lemma serialized_to_undefined stack key value :
  SerializeJSONProperty stack toJsonReplacer key value = Resolved None →
  startsWithDollars key = true
  ∨ value = Undefined
  ∨ (∃ d, value = Symbol_ d)
  ∨ (∃ f props, value = Function_ f props).
Proof.
  destruct stack as [|stack]; [done|]. cbn [SerializeJSONProperty].
  intros Hnone.
  destruct (startsWithDollars key) eqn:Hkey; [by left|]. right.
  destruct (toJsonReplacer_cases key value)
    as [Hundefined | [[marker Hmarker] | (Hsame & _ & Hhost)]].
  - left. revert Hundefined. unfold toJsonReplacer.
    rewrite charAt_dollars, Hkey.
    destruct (isWindow value); [done|].
    destruct (truthy value && isTheDocument value); [done|].
    by destruct (isScope value).
  - rewrite Hmarker in Hnone. discriminate Hnone.
  - rewrite Hsame in Hnone.
    destruct value as [| |b|n|s|d|z|f fprops|h|items|props];
      try discriminate Hnone.
    + by left.
    + right. left. by eexists.
    + right. right. by eexists _, _.
    + by destruct (Hhost h).
    + destruct (serializeElements _ 0 items); discriminate Hnone.
    + destruct (serializeMembers _ props); discriminate Hnone.
Qed.

(** The replacer hands back [undefined] for the properties whose key
    starts with [$$], and for no other but those that are [undefined]
    already. *)
Lemma toJsonReplacer_undefined key value :
  toJsonReplacer key value = Undefined
  ↔ startsWithDollars key = true ∨ value = Undefined.
Proof.
  split.
  - unfold toJsonReplacer. rewrite charAt_dollars.
    destruct (startsWithDollars key); [by left|]. right.
    destruct (isWindow value); [done|].
    destruct (truthy value && isTheDocument value); [done|].
    by destruct (isScope value).
  - intros [Hkey | ->]; [by apply toJsonReplacer_dollars|].
    unfold toJsonReplacer. by destruct (_ && _).
Qed.

(** C10.  [toAngularJSON] returns the empty string for [undefined].  Every
    other input it serializes with [JSON.stringify] and [toJsonReplacer]:
    what it returns, or throws, is what that call does.  [toJsonReplacer]
    turns into [undefined] the value of every property whose key starts
    with [$$] (and of no other property that has a value), and so any text
    returned is the rendering of a tree in which no key, at any depth,
    starts with [$$].  A text is returned for every serializable input that
    is neither a symbol nor a function, given room on the stack for its
    nesting. *)
Theorem toAngularJSON_drops_dollar_keys :
  (∀ stack pretty, toAngularJSON stack Undefined pretty = Resolved (Some ""))
  ∧ (∀ stack obj pretty,
        obj ≠ Undefined →
        toAngularJSON stack obj pretty
        = JSON_stringify stack obj toJsonReplacer (spaceOf pretty))
  ∧ (∀ key value,
        toJsonReplacer key value = Undefined
        ↔ startsWithDollars key = true ∨ value = Undefined)
  ∧ (∀ stack obj pretty text,
        obj ≠ Undefined →
        toAngularJSON stack obj pretty = Resolved (Some text) →
        ∃ tree,
          SerializeJSONProperty stack toJsonReplacer "" obj
            = Resolved (Some tree)
          ∧ text = render (gapOf (spaceOf pretty)) "" tree
          ∧ noDollarKeys tree = true)
  ∧ (∀ stack obj pretty,
        obj ≠ Undefined →
        serializable obj = true →
        (depth obj < stack)%nat →
        ∃ result,
          toAngularJSON stack obj pretty = Resolved result
          ∧ ((∀ d, obj ≠ Symbol_ d) →
             (∀ f props, obj ≠ Function_ f props) →
             ∃ tree,
               result = Some (render (gapOf (spaceOf pretty)) "" tree)
               ∧ noDollarKeys tree = true)).
Proof.
  assert (∀ stack obj pretty,
             obj ≠ Undefined →
             toAngularJSON stack obj pretty
             = JSON_stringify stack obj toJsonReplacer (spaceOf pretty))
    as Hstringify.
  { intros stack obj pretty Hobj. by destruct obj. }
  split; [done|]. split; [done|].
  split; [apply toJsonReplacer_undefined|]. split.
  - intros stack obj pretty text Hobj. rewrite Hstringify by done.
    unfold JSON_stringify.
    destruct (SerializeJSONProperty stack toJsonReplacer "" obj)
      as [[tree|]|] eqn:Htree; [|done..].
    intros [= <-]. exists tree. repeat split.
    by eapply serialized_noDollarKeys.
  - intros stack obj pretty Hobj Hserializable Hdepth.
    rewrite Hstringify by done. unfold JSON_stringify.
    destruct (serialize_returns stack "" obj Hdepth Hserializable)
      as [[tree|] Hr]; rewrite Hr.
    + eexists. split; [reflexivity|]. intros _ _. exists tree.
      split; [done|]. by eapply serialized_noDollarKeys.
    + eexists. split; [reflexivity|]. intros Hsymbol Hfunction.
      apply serialized_to_undefined
        in Hr as [Hkey | [-> | [[d ->] | (f & props & ->)]]].
      * done.
      * done.
      * by destruct (Hsymbol d).
      * by destruct (Hfunction f props).
Qed.

End Run.

(** *** The theorem at work on the example row *)

Section Examples.

Import Demo.

Local Existing Instance Demo.runtime.

(** The row loses its two [$$hashKey]s; the scope and the window are
    replaced by their markers before anything of theirs is looked at. *)
Lemma toAngularJSON_drops_dollar_keys_witness :
  toAngularJSON 0 Undefined (Number 2) = Resolved (Some "")
  ∧ toJsonReplacer "$$hashKey" (Str "object:7") = Undefined
  ∧ toAngularJSON 1 Null Undefined = Resolved (Some "null")
  ∧ ∃ tree,
      tree = JObject [("name", JString "cpu");
                      ("tags", JArray [JObject [("id", JNumber "1")]]);
                      ("$scope", JString "$SCOPE");
                      ("win", JString "$WINDOW")]
      ∧ toAngularJSON 4 row Undefined = Resolved (Some (render "" "" tree))
      ∧ noDollarKeys tree = true.
Proof.
  destruct (toAngularJSON_drops_dollar_keys (R := Demo.runtime))
    as (Hundefined & Hstringify & Hreplaced & Htree & Hreturns).
  split; [apply Hundefined|].
  split; [apply Hreplaced; by left|].
  split.
  { etransitivity; [by apply Hstringify | reflexivity]. }
  destruct (Hreturns 4%nat row Undefined) as (result & Hrun & Htext);
    [done | reflexivity | simpl; lia |].
  destruct Htext as (tree' & -> & _); [done..|].
  destruct (Htree 4%nat row Undefined _ ltac:(done) Hrun)
    as (tree & Hserialized & _ & Hkeys).
  injection Hserialized as <-.
  eexists. split; [reflexivity|]. split; [reflexivity | exact Hkeys].
Defined.

(** A BigInt makes [JSON.stringify] throw, and [toAngularJSON] with it; a
    symbol comes back as [undefined]. *)
Example toAngularJSON_of_a_BigInt_and_of_a_symbol :
  toAngularJSON 4 (Array [Str "a"; BigInt_ 1]) Undefined = Rejected TypeError
  ∧ toAngularJSON 4 (Symbol_ "s") Undefined = Resolved None.
Proof. split; reflexivity. Qed.

End Examples.

End AngularJsonProps.


(** ** More on the rule-status handler *)

Module RuleStatusMore.

Import RuleStatus RuleStatusProps.

Section Run.

Context {D : Domain} {C : Collaborators}.

Implicit Types (client : SavedObjectsClient) (id : string).
Implicit Types (log : list (Call * option Error)).

(** X1.  [getClients] is awaited outside the [try] block: when it is
    rejected the handler itself is rejected with the same reason, it builds
    no response, and no fetch is made. *)
Theorem handler_rejects_when_getClients_rejects
    request (e : Env) log reason e1 :
  getClients (legacy request) e = (Rejected reason, e1) →
  handler request (mkWorld e log) =
  (Rejected reason,
   mkWorld e1 (log ++ [(CallGetClients (legacy request), Some reason)])).
Proof.
  intros Hclients. unfold handler, bind at 1, invoke. simpl.
  rewrite Hclients. reflexivity.
Qed.

Lemma fold_commit_settles (l : list (string * Settled Error FindResponse))
    (m : gmap string RuleStatus) :
  match fold_left commit l (Resolved m) with
  | Resolved _ => lastRejection l.*2 = None
  | Rejected err => lastRejection l.*2 = Some err
  end.
Proof.
  destruct (lastRejection l.*2) as [err|] eqn:Hlast.
  - by rewrite (fold_commit_rejected _ _ err).
  - revert m. induction l as [|[id p] l IH]; intros m; csimpl in *; [done|].
    destruct (lastRejection l.*2); [done|].
    destruct p as [found|err]; [|done]. by apply IH.
Qed.

Lemma lastRejection_no_failure (ps : list (Settled Error FindResponse)) :
  lastRejection ps = None ↔ Forall (fun p => failure p = None) ps.
Proof.
  induction ps as [|p ps IH]; simpl; [by split; [constructor|]|].
  rewrite Forall_cons, <- IH.
  destruct (lastRejection ps) as [err|].
  - split; [done|]. by intros [_ ?].
  - destruct p as [found|err]; simpl; [done|]. split; [done|]. by intros [? _].
Qed.

Lemma findCalls_no_failure client (l : list string)
    (outcomes : list (Settled Error FindResponse)) :
  length outcomes = length l →
  Forall (fun fetch => fetch.2 = None) (findCalls client l outcomes)
  ↔ Forall (fun p => failure p = None) outcomes.
Proof.
  unfold findCalls. revert outcomes.
  induction l as [|id l IH]; intros [|p ps] Hlen; simpl in *; try done.
  rewrite !Forall_cons, IH by lia. done.
Qed.

(** X2.  Once the clients are there and the alerts client is among them,
    the handler always answers: it is never rejected.  It has then fetched
    every id exactly once, in the order of the ids, also after a fetch that
    failed; and it hands back a statuses object exactly when none of these
    fetches has failed. *)
Theorem handler_always_answers request (e : Env) log clients e1 ac :
  getClients (legacy request) e = (Resolved clients, e1) →
  alertsClient clients = Some ac →
  ∃ answer e2 fetches,
    handler request (mkWorld e log) =
      (Resolved answer,
       mkWorld e2 (log ++ (CallGetClients (legacy request), None) :: fetches))
    ∧ fetches.*1
      = (fun id => CallFind (savedObjectsClient clients) (findOptionsFor id))
          <$> ids (query request)
    ∧ ((∃ statuses, answer = ReturnStatuses statuses)
       ↔ Forall (fun fetch => fetch.2 = None) fetches).
Proof.
  intros Hclients Hac.
  rewrite (handler_run _ _ _ _ _ _ Hclients Hac).
  set (outcomes :=
         (fetchAll (savedObjectsClient clients) (ids (query request)) e1).1).
  assert (length outcomes = length (ids (query request))) as Hlen.
  { apply fetchAll_length. }
  eexists _, _, _. split; [reflexivity|].
  split; [by apply findCalls_calls|].
  rewrite findCalls_no_failure, <- lastRejection_no_failure by done.
  pose proof (fold_commit_settles (zip (ids (query request)) outcomes) ∅)
    as Hsettled.
  rewrite snd_zip in Hsettled by lia.
  destruct (fold_left commit _ _) as [statuses|err].
  - split; [done|]. intros _. by eexists.
  - rewrite Hsettled. split; [|done]. by intros [statuses [=]].
Qed.

(** X3.  The handler puts no bound of its own on the failures: of a page of
    any length, every record after the first becomes a failure, in the order
    of the page, so a store that hands back more than six records gives more
    than five failures. *)
Theorem failures_are_all_the_other_records
    request (e : Env) log clients e1 ac responses e2 id found :
  getClients (legacy request) e = (Resolved clients, e1) →
  alertsClient clients = Some ac →
  fetchAll (savedObjectsClient clients) (ids (query request)) e1
    = (Resolved <$> responses, e2) →
  lastFetched id (zip (ids (query request)) responses) = Some found →
  ∃ (statuses : gmap string RuleStatus) entry,
    (handler request (mkWorld e log)).1 = Resolved (ReturnStatuses statuses)
    ∧ statuses !! id = Some entry
    ∧ length (failures entry) = pred (length (saved_objects found))
    ∧ (∀ i : nat,
          failures entry !! i =
          (fun r => Some (snakeCaseKeys (attributes r)))
            <$> saved_objects found !! S i)
    ∧ (is_Some (current_status entry) ↔ saved_objects found ≠ []).
Proof.
  intros Hclients Hac Hfetch Hlast.
  rewrite (handler_run_resolved _ _ _ _ _ _ _ _ Hclients Hac Hfetch).
  eexists _, (ruleStatusOf found). split; [reflexivity|].
  split; [by rewrite lookup_inserted, Hlast|].
  unfold ruleStatusOf. simpl.
  destruct (saved_objects found) as [|newest older]; simpl.
  - split; [done|]. split; [done|]. split; [|done].
    intros Hsome. by apply is_Some_None in Hsome.
  - rewrite length_map. split; [done|]. split.
    + intros i. by rewrite list_lookup_fmap.
    + split; [done|]. intros _. by eexists.
Qed.

(** The outcomes of a store whose answers do not depend on its state. *)
Lemma fetchAll_stateless client
    (answer : FindOptions → Settled Error FindResponse) (l : list string) e :
  (∀ options e', (find client options e').1 = answer options) →
  (fetchAll client l e).1 = (fun id => answer (findOptionsFor id)) <$> l.
Proof.
  intros Hstateless. revert e.
  induction l as [|id l IH]; intros e; simpl; [done|].
  specialize (Hstateless (findOptionsFor id) e).
  destruct (find client (findOptionsFor id) e) as [p e1]. simpl in *.
  specialize (IH e1). destruct (fetchAll client l e1) as [ps e2].
  simpl in *. by rewrite Hstateless, IH.
Qed.

Lemma lastFetched_stateless (page : string → FindResponse)
    (l : list string) id :
  lastFetched id (zip l (page <$> l)) =
  if decide (id ∈ l) then Some (page id) else None.
Proof.
  induction l as [|k l IH] using rev_ind.
  - by rewrite decide_False by apply not_elem_of_nil.
  - rewrite fmap_app, zip_with_app by by rewrite length_fmap.
    simpl. rewrite lastFetched_snoc, IH.
    destruct (decide (k = id)) as [->|Hk].
    + rewrite decide_True; [done|]. apply elem_of_app. right. by left.
    + destruct (decide (id ∈ l)) as [Hin|Hout].
      * rewrite decide_True; [done|]. apply elem_of_app. by left.
      * rewrite decide_False; [done|].
        rewrite elem_of_app, list_elem_of_singleton.
        intros [Hin|Heq]; [by apply Hout | by apply Hk].
Qed.

(** X4.  Against a store whose answers do not depend on its state and are
    all resolved, the statuses object depends only on which ids the query
    holds, not on their order nor on how often each occurs. *)
Theorem statuses_depend_on_the_set_of_ids
    request1 request2 (e e' : Env) log log' clients e1 e1' ac
    (page : string → FindResponse) :
  getClients (legacy request1) e = (Resolved clients, e1) →
  getClients (legacy request2) e' = (Resolved clients, e1') →
  alertsClient clients = Some ac →
  (∀ options env,
      (find (savedObjectsClient clients) options env).1
      = Resolved (page (search options))) →
  (∀ id, id ∈ ids (query request1) ↔ id ∈ ids (query request2)) →
  ∃ statuses : gmap string RuleStatus,
    (handler request1 (mkWorld e log)).1 = Resolved (ReturnStatuses statuses)
    ∧ (handler request2 (mkWorld e' log')).1
      = Resolved (ReturnStatuses statuses)
    ∧ ∀ id,
        statuses !! id =
        if decide (id ∈ ids (query request1))
        then Some (ruleStatusOf (page id))
        else None.
Proof.
  intros Hclients Hclients' Hac Hstateless Hsame.
  assert (∀ request env0 env1 log0,
             getClients (legacy request) env0 = (Resolved clients, env1) →
             ∃ statuses : gmap string RuleStatus,
               (handler request (mkWorld env0 log0)).1
               = Resolved (ReturnStatuses statuses)
               ∧ ∀ id,
                   statuses !! id =
                   if decide (id ∈ ids (query request))
                   then Some (ruleStatusOf (page id))
                   else None) as Hrun.
  { intros request env0 env1 log0 Hget.
    pose proof (fetchAll_stateless (savedObjectsClient clients)
                  (fun options => Resolved (page (search options)))
                  (ids (query request)) env1 Hstateless) as Houtcomes.
    simpl in Houtcomes.
    destruct (fetchAll (savedObjectsClient clients) (ids (query request)) env1)
      as [outcomes env2] eqn:Hfetch.
    simpl in Houtcomes. subst outcomes.
    assert ((fun id => Resolved (page id)) <$> ids (query request)
            = Resolved (E := Error) <$> (page <$> ids (query request))) as Hpages.
    { by rewrite <- list_fmap_compose. }
    rewrite Hpages in Hfetch.
    rewrite (handler_run_resolved _ _ _ _ _ _ _ _ Hget Hac Hfetch).
    eexists. split; [reflexivity|]. intros id.
    rewrite lookup_inserted, lastFetched_stateless, lookup_empty.
    by destruct (decide (id ∈ ids (query request))). }
  destruct (Hrun request1 e e1 log Hclients) as (statuses & Hrun1 & Hlookup).
  destruct (Hrun request2 e' e1' log' Hclients')
    as (statuses' & Hrun2 & Hlookup').
  exists statuses. split; [done|]. split; [|done].
  rewrite Hrun2. do 2 f_equal. apply map_eq. intros id.
  rewrite Hlookup, Hlookup'.
  destruct (decide (id ∈ ids (query request1))) as [Hin|Hout].
  - rewrite decide_True; [done|]. by apply Hsame.
  - rewrite decide_False; [done|]. by rewrite <- Hsame.
Qed.

End Run.

(** *** These theorems at work *)

Section Examples.

Local Existing Instance WideStore.domain.
Local Existing Instance WideStore.collaborators.

(** Nobody is signed in: the handler is rejected, with nothing fetched. *)
Lemma handler_rejects_when_getClients_rejects_witness :
  handler
    (WideStore.requestFor false ["rule-1"]) WideStore.start =
  (Rejected "session expired",
   mkWorld () [(CallGetClients false, Some "session expired")]).
Proof.
  apply (handler_rejects_when_getClients_rejects
           (C := WideStore.collaborators)
           (WideStore.requestFor false ["rule-1"]) () [] "session expired" ()).
  reflexivity.
Defined.

(** Eight records come back for "rule-1": one current status and seven
    failures. *)
Lemma failures_are_all_the_other_records_witness :
  ∃ (statuses : gmap string RuleStatus) entry,
    (handler
       (WideStore.requestFor true ["rule-1"]) WideStore.start).1
    = Resolved (ReturnStatuses statuses)
    ∧ statuses !! "rule-1" = Some entry
    ∧ current_status entry = Some 80
    ∧ failures entry
      = [Some 70; Some 60; Some 50; Some 40; Some 30; Some 20; Some 10].
Proof.
  destruct (failures_are_all_the_other_records
              (C := WideStore.collaborators)
              (WideStore.requestFor true ["rule-1"]) () []
              WideStore.clients () () [WideStore.pageOf "rule-1"] ()
              "rule-1" (WideStore.pageOf "rule-1"))
    as (statuses & entry & Hrun & Hlookup & _); [reflexivity..|].
  exists statuses, entry. split; [exact Hrun|]. split; [exact Hlookup|].
  injection Hrun as <-. injection Hlookup as <-. split; reflexivity.
Defined.

(** The same two rules, asked for in another order and one of them twice:
    the same statuses. *)
Lemma statuses_depend_on_the_set_of_ids_witness :
  ∃ statuses : gmap string RuleStatus,
    (handler
       (WideStore.requestFor true ["rule-1"; "rule-2"; "rule-1"])
       WideStore.start).1
    = Resolved (ReturnStatuses statuses)
    ∧ (handler
         (WideStore.requestFor true ["rule-2"; "rule-1"]) WideStore.start).1
      = Resolved (ReturnStatuses statuses).
Proof.
  destruct (statuses_depend_on_the_set_of_ids
              (C := WideStore.collaborators)
              (WideStore.requestFor true ["rule-1"; "rule-2"; "rule-1"])
              (WideStore.requestFor true ["rule-2"; "rule-1"])
              () () [] [] WideStore.clients () () () WideStore.pageOf)
    as (statuses & Hrun1 & Hrun2 & _).
  - reflexivity.
  - reflexivity.
  - reflexivity.
  - intros options env. reflexivity.
  - intros id. simpl. rewrite !elem_of_cons, !elem_of_nil. tauto.
  - exists statuses. split; [exact Hrun1 | exact Hrun2].
Defined.

End Examples.

Section MoreExamples.

Local Existing Instance Demo.domain.
Local Existing Instance Demo.collaborators.

(** The fetch for "rule-9" fails, and "rule-2" is fetched all the same. *)
Lemma handler_always_answers_witness :
  ∃ answer e2 fetches,
    handler
      (Demo.requestFor true ["rule-1"; "rule-9"; "rule-2"]) Demo.start =
      (Resolved answer,
       mkWorld e2 ([] ++ (CallGetClients true, None) :: fetches))
    ∧ fetches.*1
      = [CallFind () (findOptionsFor "rule-1");
         CallFind () (findOptionsFor "rule-9");
         CallFind () (findOptionsFor "rule-2")]
    ∧ ((∃ statuses, answer = ReturnStatuses statuses)
       ↔ Forall (fun fetch => fetch.2 = None) fetches).
Proof.
  apply (handler_always_answers (C := Demo.collaborators)
           (Demo.requestFor true ["rule-1"; "rule-9"; "rule-2"]) 0%nat []
           (Demo.clients true) 0%nat ());
    reflexivity.
Defined.

End MoreExamples.

End RuleStatusMore.

(** ** More on the annotation routes *)

Module AnnotationsMore.

Import Annotations.

Section Run.

Context {D : Domain} {C : Collaborators}.

Implicit Types (w : World (Thrown Foreign) Env Call).
Implicit Types (log : list (Call * option (Thrown Foreign))).

(** X5.  The search route asks neither whether the annotations feature is
    available nor who the user is: all it ever calls is the service
    provider and then [getAnnotations], with the request body as it came.
    When both succeed its answer is [ok] with what the service returned. *)
Theorem search_goes_straight_to_the_service
    context (request : Request GetAnnotationsBody ()) w :
  (∃ result new,
      ranTo (getAnnotationsRoute context request) w result new
      ∧ ∀ call, call ∈ new.*1 →
          call = CallAnnotationServiceProvider context
          ∨ ∃ service, call = CallGetAnnotations service (body request))
  ∧ (∀ service e1 resp e2,
        annotationServiceProvider context (env w) = (Resolved service, e1) →
        getAnnotations service (body request) e1 = (Resolved resp, e2) →
        getAnnotationsRoute context request w =
        (Resolved (ok resp),
         mkWorld e2
           (calls w ++ [(CallAnnotationServiceProvider context, None);
                        (CallGetAnnotations service (body request), None)]))).
Proof.
  split.
  - unfold ranTo, getAnnotationsRoute, try_catch, bind, invoke, invokeSync,
      await, ret.
    simpl.
    destruct (annotationServiceProvider context (env w))
      as [[service|err] e1]; simpl.
    + destruct (getAnnotations service (body request) e1)
        as [[resp|err] e2]; simpl;
        (eexists _, _; split;
         [eexists; rewrite <- app_assoc; reflexivity|]);
        intros call Hcall;
        apply elem_of_cons in Hcall as [->|Hcall]; [by left| |by left|];
        apply list_elem_of_singleton in Hcall as ->; right; by eexists.
    + eexists _, _. split; [by eexists|].
      intros call Hcall. apply list_elem_of_singleton in Hcall as ->.
      by left.
  - intros service e1 resp e2 Hservice Hget.
    unfold getAnnotationsRoute, try_catch, bind, invoke, invokeSync, await,
      ret.
    simpl. rewrite Hservice. simpl. rewrite Hget. simpl.
    by rewrite <- app_assoc.
Qed.

(** X6.  With the feature available and a user resolved, the upsert route
    indexes the annotation under that user's name, unless the name is the
    empty string, which counts as no name: then it is
    [ANNOTATION_USER_UNKNOWN] again. *)
Theorem upsert_records_the_user_name
    context (request : Request IndexAnnotationBody ()) (e : Env) log
    e1 service e2 user e3 :
  isAnnotationsFeatureAvailable (callAsCurrentUser context) e
    = (Resolved true, e1) →
  annotationServiceProvider context e1 = (Resolved service, e2) →
  getCurrentUser request e2 = (Resolved (Some user), e3) →
  let name :=
    if decide (username user = "") then ANNOTATION_USER_UNKNOWN
    else username user in
  indexAnnotationRoute context request (mkWorld e log) =
  (Resolved
     match (indexAnnotation service (body request) name e3).1 with
     | Resolved resp => ok resp
     | Rejected err => customError (wrapError err)
     end,
   mkWorld (indexAnnotation service (body request) name e3).2
     (log ++
      [(CallIsAnnotationsFeatureAvailable (callAsCurrentUser context), None);
       (CallAnnotationServiceProvider context, None);
       (CallGetCurrentUser request, None);
       (CallIndexAnnotation service (body request) name,
        failure (indexAnnotation service (body request) name e3).1)])).
Proof.
  intros Hcheck Hservice Huser name.
  unfold indexAnnotationRoute, try_catch, bind, invoke, invokeSync, await, ret.
  simpl. rewrite Hcheck. simpl. rewrite Hservice. simpl. rewrite Huser. simpl.
  fold name.
  destruct (indexAnnotation service (body request) name e3)
    as [[resp|err] e4]; simpl; by rewrite <- !app_assoc.
Qed.

(** X7.  With the feature available, the delete route hands the
    [annotationId] of the path to [deleteAnnotation] and answers as that
    call decides; it never asks who the user is. *)
Theorem delete_passes_the_annotation_id
    context (request : Request () DeleteParams) (e : Env) log
    e1 service e2 :
  isAnnotationsFeatureAvailable (callAsCurrentUser context) e
    = (Resolved true, e1) →
  annotationServiceProvider context e1 = (Resolved service, e2) →
  deleteAnnotationRoute context request (mkWorld e log) =
  (Resolved
     match (deleteAnnotation service (annotationId (params request)) e2).1 with
     | Resolved resp => ok resp
     | Rejected err => customError (wrapError err)
     end,
   mkWorld (deleteAnnotation service (annotationId (params request)) e2).2
     (log ++
      [(CallIsAnnotationsFeatureAvailable (callAsCurrentUser context), None);
       (CallAnnotationServiceProvider context, None);
       (CallDeleteAnnotation service (annotationId (params request)),
        failure
          (deleteAnnotation service (annotationId (params request)) e2).1)])).
Proof.
  intros Hcheck Hservice.
  unfold deleteAnnotationRoute, try_catch, bind, invoke, invokeSync, await,
    ret.
  simpl. rewrite Hcheck. simpl. rewrite Hservice. simpl.
  destruct (deleteAnnotation service (annotationId (params request)) e2)
    as [[resp|err] e3]; simpl; by rewrite <- !app_assoc.
Qed.

End Run.

Section Examples.

Import Demo.

Local Existing Instance Demo.domain.
Local Existing Instance Demo.collaborators.

Definition searchFor (jobIds : list string)
  : Request (H := Demo.domain) (list string) () :=
  {| body := jobIds; params := (); raw := () : KibanaRequest |}.

(** The feature being unavailable does not keep the search from running. *)
Lemma search_goes_straight_to_the_service_witness :
  let setup := {| available := false; signedIn := None; serviceUp := true |} in
  getAnnotationsRoute () (searchFor ["job-1"; "job-2"]) (start setup) =
  (Resolved (ok ["job-1"; "job-2"]),
   mkWorld setup
     [(CallAnnotationServiceProvider (), None);
      (CallGetAnnotations () ["job-1"; "job-2"], None)]).
Proof.
  intros setup.
  apply (proj2 (search_goes_straight_to_the_service
                  (C := Demo.collaborators) ()
                  (searchFor ["job-1"; "job-2"])
                  (start setup)) () setup ["job-1"; "job-2"] setup);
    reflexivity.
Defined.

(** A user named "elastic", and one whose name is empty. *)
Lemma upsert_records_the_user_name_witness :
  (let setup := {| available := true;
                   signedIn := Some {| username := "elastic" |};
                   serviceUp := true |} in
   (indexAnnotationRoute () (upsert "spike") (start setup)).1
   = Resolved (ok "elastic: spike"))
  ∧ (let setup := {| available := true;
                     signedIn := Some {| username := "" |};
                     serviceUp := true |} in
     (indexAnnotationRoute () (upsert "spike") (start setup)).1
     = Resolved (ok "<user unknown>: spike")).
Proof.
  split; intros setup.
  - exact (f_equal fst
             (upsert_records_the_user_name (C := Demo.collaborators)
                () (upsert "spike") setup [] setup () setup
                {| username := "elastic" |} setup eq_refl eq_refl eq_refl)).
  - exact (f_equal fst
             (upsert_records_the_user_name (C := Demo.collaborators)
                () (upsert "spike") setup [] setup () setup
                {| username := "" |} setup eq_refl eq_refl eq_refl)).
Defined.

Lemma delete_passes_the_annotation_id_witness :
  let setup := {| available := true; signedIn := None; serviceUp := true |} in
  deleteAnnotationRoute () (delete "a-1") (start setup) =
  (Resolved (ok "a-1"),
   mkWorld setup
     [(CallIsAnnotationsFeatureAvailable (), None);
      (CallAnnotationServiceProvider (), None);
      (CallDeleteAnnotation () "a-1", None)]).
Proof.
  intros setup.
  apply (delete_passes_the_annotation_id (C := Demo.collaborators)
           () (delete "a-1") setup [] setup () setup);
    reflexivity.
Defined.

End Examples.

End AnnotationsMore.

(** ** More on [isValidJson], and [isValidInterval] *)

Module ValidJsonMore.

Import ValidJson ValidJsonProps.

Section Run.

Context {R : ValidJson.Runtime}.

Implicit Types (value ws rest : JsString) (c : N).
Implicit Types (w : World SyntaxError () Call).

(** X8.  [isValidJson] never throws, whatever [JSON.parse] does: it always
    answers with a boolean, and it calls [JSON.parse] at most once. *)
Theorem isValidJson_never_throws value w :
  ∃ (valid : bool) new,
    isValidJson value w = (Resolved valid, mkWorld (env w) (calls w ++ new))
    ∧ (length new ≤ 1)%nat.
Proof.
  destruct w as [[] log].
  destruct (whitespace_or_first value)
    as [Hws|(ws & c & rest & -> & Hws & Hc)].
  { exists true, []. rewrite isValidJson_blank by done.
    simpl. rewrite app_nil_r. by split; [|lia]. }
  destruct (decide (c = 123%N ∨ c = 91%N)) as [Hopen|Hother].
  - destruct (isValidJson_open ws c rest (mkWorld () log) Hws Hopen)
      as [_ ->].
    eexists _, [_]. by split; [|simpl; lia].
  - exists false, []. rewrite isValidJson_other by tauto.
    simpl. rewrite app_nil_r. by split; [|lia].
Qed.

Lemma trimEnd_whitespace rest ws :
  Forall (fun c => isWhiteSpace c = true) ws →
  trimEnd (rest ++ ws) = trimEnd rest.
Proof.
  intros Hws. unfold trimEnd.
  rewrite rev_app_distr, trimStart_whitespace; [done|].
  by apply Forall_rev.
Qed.

(** X9.  Whitespace around the text does not matter: with any whitespace
    put before and after it, [isValidJson] gives the same answer and parses
    the same trimmed text, if any. *)
Theorem isValidJson_ignores_surrounding_whitespace before value after w :
  Forall (fun c => isWhiteSpace c = true) before →
  Forall (fun c => isWhiteSpace c = true) after →
  isValidJson (before ++ value ++ after) w = isValidJson value w.
Proof.
  intros Hbefore Hafter.
  destruct (whitespace_or_first value)
    as [Hws|(ws & c & rest & -> & Hws & Hc)].
  { rewrite !isValidJson_blank; [done..|].
    apply Forall_app. split; [done|]. by apply Forall_app. }
  replace (before ++ (ws ++ c :: rest) ++ after)
    with ((before ++ ws) ++ c :: (rest ++ after))
    by by rewrite <- !app_assoc.
  assert (Forall (fun c => isWhiteSpace c = true) (before ++ ws)) as Hws'.
  { by apply Forall_app. }
  destruct (decide (c = 123%N ∨ c = 91%N)) as [Hopen|Hother].
  - destruct (isValidJson_open (before ++ ws) c (rest ++ after) w Hws' Hopen)
      as [_ ->].
    destruct (isValidJson_open ws c rest w Hws Hopen) as [_ ->].
    by rewrite trimEnd_whitespace.
  - rewrite !isValidJson_other by tauto. done.
Qed.

End Run.

Section Examples.

Import ValidJson.Demo.

Local Existing Instance ValidJson.Demo.runtime.

(** An array between a tab and a line feed is the array. *)
Lemma isValidJson_ignores_surrounding_whitespace_witness :
  isValidJson ([9%N] ++ codeUnits "[1,2]" ++ [10%N]) start =
  (Resolved true, mkWorld () [(CallJSON_parse (codeUnits "[1,2]"), None)]).
Proof.
  rewrite (isValidJson_ignores_surrounding_whitespace
             (R := ValidJson.Demo.runtime)
             [9%N] (codeUnits "[1,2]") [10%N] start);
    [reflexivity | by repeat constructor | by repeat constructor].
Defined.

End Examples.

End ValidJsonMore.

Module ValidIntervalProps.

Import ValidJson ValidInterval.

Section Run.

Context {R : ValidInterval.Runtime}.

Implicit Types (value base : JsString).
Implicit Types (w : World IntervalError () Call).

(** X10.  With a base interval that is not the empty string,
    [isValidInterval] never throws: it calls [leastCommonInterval] once, on
    the base and the value in that order, and answers [true] only when that
    call returned the value with its whitespace removed; a throw there, or
    any other interval, gives [false].  [isValidEsInterval] is not asked.
    With no base interval, or the empty string for one, it is the other way
    round: the answer, or the throw, is that of [isValidEsInterval] on the
    value, and [leastCommonInterval] is not called. *)
Theorem isValidInterval_with_and_without_base value w :
  (∀ base,
      base ≠ [] →
      ∃ valid : bool,
        isValidInterval value (Some base) w =
          (Resolved valid,
           mkWorld (env w)
             (calls w ++ [(CallLeastCommonInterval base value,
                           failure (leastCommonInterval base value))]))
        ∧ (valid = true ↔
           leastCommonInterval base value
           = Resolved (removeWhitespace value)))
  ∧ (∀ baseInterval,
        baseInterval = None ∨ baseInterval = Some [] →
        isValidInterval value baseInterval w =
          (isValidEsInterval value,
           mkWorld (env w)
             (calls w ++ [(CallIsValidEsInterval value,
                           failure (isValidEsInterval value))]))).
Proof.
  split.
  - intros base Hbase. unfold isValidInterval. simpl.
    rewrite bool_decide_eq_false_2 by done. simpl.
    unfold _parseWithBase, try_catch, bind, invokeSync, ret. simpl.
    destruct (leastCommonInterval base value) as [interval|err]; simpl.
    + eexists. split; [reflexivity|].
      rewrite bool_decide_eq_true. split; [by intros ->|by intros [=]].
    + eexists. by split.
  - by intros baseInterval [-> | ->].
Qed.

End Run.

Section Examples.

Import ValidInterval.Demo.

Local Existing Instance ValidInterval.Demo.runtime.

(** Against a base of five minutes: ten minutes is a multiple, seven is
    not, and rubbish makes [leastCommonInterval] throw.  Without a base,
    seven minutes is an interval like any other. *)
Lemma isValidInterval_with_and_without_base_witness :
  (isValidInterval (codeUnits "10m") (Some (codeUnits "5m")) start).1
    = Resolved true
  ∧ (isValidInterval (codeUnits "7m") (Some (codeUnits "5m")) start).1
    = Resolved false
  ∧ isValidInterval (codeUnits "soon") (Some (codeUnits "5m")) start =
    (Resolved false,
     mkWorld ()
       [(CallLeastCommonInterval (codeUnits "5m") (codeUnits "soon"),
         Some "Invalid interval format")])
  ∧ isValidInterval (codeUnits "7m") (Some []) start =
    (Resolved true, mkWorld () [(CallIsValidEsInterval (codeUnits "7m"), None)]).
Proof.
  split; [|split; [|split]].
  - destruct (proj1 (isValidInterval_with_and_without_base
                       (R := ValidInterval.Demo.runtime)
                       (codeUnits "10m") start) (codeUnits "5m"))
      as (valid & -> & Hvalid); [done|].
    simpl. f_equal. by apply Hvalid.
  - destruct (proj1 (isValidInterval_with_and_without_base
                       (R := ValidInterval.Demo.runtime)
                       (codeUnits "7m") start) (codeUnits "5m"))
      as (valid & -> & Hvalid); [done|].
    simpl. f_equal. destruct valid; [|done].
    pose proof (proj1 Hvalid eq_refl) as Habsurd.
    vm_compute in Habsurd. discriminate Habsurd.
  - destruct (proj1 (isValidInterval_with_and_without_base
                       (R := ValidInterval.Demo.runtime)
                       (codeUnits "soon") start) (codeUnits "5m"))
      as (valid & -> & Hvalid); [done|].
    simpl. f_equal. f_equal. destruct valid; [|done].
    pose proof (proj1 Hvalid eq_refl) as Habsurd.
    vm_compute in Habsurd. discriminate Habsurd.
  - apply (proj2 (isValidInterval_with_and_without_base
                    (R := ValidInterval.Demo.runtime)
                    (codeUnits "7m") start)). by right.
Defined.

End Examples.

End ValidIntervalProps.

(** ** More on [toAngularJSON] *)

Module AngularJsonMore.

Import AngularJson AngularJsonProps.

Section Run.

Context {R : Runtime}.

Implicit Types (key : string) (value obj : Value) (tree : Json).
Implicit Types (serialize : string → Value → Settled JsError (option Json)).

(** The values that [JSON.stringify] leaves out of an object by itself. *)
Definition isUndefinedSymbolOrFunction value : bool :=
  match value with
  | Undefined | Symbol_ _ | Function_ _ _ => true
  | _ => false
  end.

(** The properties that do not reach the output of an object: those under
    a key that starts with [$$], and those whose value is [undefined], a
    symbol, or a function that does not pass for a scope. *)
Definition dropped key value : bool :=
  startsWithDollars key
  || match value with
     | Undefined | Symbol_ _ => true
     | Function_ f props => negb (isScope (Function_ f props))
     | _ => false
     end.



Lemma serializeElements_lookup serialize index items elements :
  serializeElements serialize index items = Resolved elements →
  length elements = length items
  ∧ ∀ (i : nat) item,
      items !! i = Some item →
      ∃ r, serialize (pretty (index + i)%nat) item = Resolved r
           ∧ elements !! i = Some (default JNull r).
Proof.
  revert index elements.
  induction items as [|v items IH]; intros index elements; simpl.
  - intros [= <-]. split; [done|]. intros i item Hi. done.
  - destruct (serialize (pretty index) v) as [element|] eqn:Hv; [|done].
    destruct (serializeElements serialize (S index) items) as [rest|] eqn:Hrest;
      [|done].
    intros [= <-]. destruct (IH _ _ Hrest) as [Hlen Hitems].
    split; [simpl; lia|].
    intros [|i] item Hi; simpl in *.
    + injection Hi as <-. exists element. by rewrite Nat.add_0_r.
    + destruct (Hitems i item Hi) as (r & Hr & Hlookup).
      exists r. by rewrite Nat.add_succ_r.
Qed.

Lemma array_replaced key items :
  startsWithDollars key = false →
  toJsonReplacer key (Array items) = Array items.
Proof.
  intros Hkey. unfold toJsonReplacer. by rewrite charAt_dollars, Hkey.
Qed.

(** X12.  An array keeps its length: every element is written at its
    place, and an element that serializes to [undefined] is written as
    [null] instead of being left out. *)
Theorem arrays_keep_their_length stack key items tree :
  startsWithDollars key = false →
  SerializeJSONProperty (S stack) toJsonReplacer key (Array items)
    = Resolved (Some tree) →
  ∃ elements,
    tree = JArray elements
    ∧ length elements = length items
    ∧ ∀ (i : nat) item,
        items !! i = Some item →
        ∃ r,
          SerializeJSONProperty stack toJsonReplacer (pretty i) item
            = Resolved r
          ∧ elements !! i = Some (default JNull r).
Proof.
  intros Hkey. simpl. rewrite array_replaced by done.
  destruct (serializeElements _ 0 items) as [elements|] eqn:Hitems; [|done].
  intros [= <-]. exists elements. split; [done|].
  by apply serializeElements_lookup in Hitems.
Qed.

(** A property serializes to [undefined] when what the replacer makes of
    it is [undefined], a symbol or a function. *)
Lemma serialized_undefined stack key value r :
  SerializeJSONProperty stack toJsonReplacer key value = Resolved r →
  r = None ↔ isUndefinedSymbolOrFunction (toJsonReplacer key value) = true.
Proof.
  destruct stack as [|stack]; [done|]. cbn [SerializeJSONProperty].
  pose proof (toJsonReplacer_cases key value) as Hcases.
  destruct (toJsonReplacer key value)
    as [| |b|n|s|d|z|f fprops|h|items|props]; simpl;
    try (by intros [= <-]).
  - destruct Hcases as [[=] | [[marker [=]] | (<- & _ & Hhost)]].
    by destruct (Hhost h).
  - destruct (serializeElements _ 0 items); [|done]. by intros [= <-].
  - destruct (serializeMembers _ props); [|done]. by intros [= <-].
Qed.

Lemma serializeMembers_keys stack props members :
  serializeMembers (SerializeJSONProperty stack toJsonReplacer) props
    = Resolved members →
  members.*1
  = (filter (fun prop =>
               isUndefinedSymbolOrFunction (toJsonReplacer prop.1 prop.2)
               = false)
       props).*1.
Proof.
  revert members. induction props as [|[k v] props IH]; intros members; simpl.
  - by intros [= <-].
  - destruct (SerializeJSONProperty stack toJsonReplacer k v) as [r|] eqn:Hkv;
      [|done].
    destruct (serializeMembers _ props) as [rest|]; [|done].
    intros [= <-]. specialize (IH rest eq_refl).
    apply serialized_undefined in Hkv.
    rewrite filter_cons. simpl.
    destruct (isUndefinedSymbolOrFunction (toJsonReplacer k v)).
    + rewrite (proj2 Hkv eq_refl). by rewrite decide_False.
    + destruct r as [j|]; [|discriminate (proj1 Hkv eq_refl)].
      rewrite decide_True by done. csimpl. by rewrite IH.
Qed.

(** What the replacer makes of a property is [undefined], a symbol or a
    function exactly for the properties described by [dropped]. *)
Lemma dropped_replaced key value :
  isUndefinedSymbolOrFunction (toJsonReplacer key value) = dropped key value.
Proof.
  unfold toJsonReplacer, dropped. rewrite charAt_dollars.
  destruct (startsWithDollars key); [done|]. simpl.
  destruct value as [| |b|n|s|d|z|f fprops|[|]|items|props]; try done.
  all: unfold isWindow; simpl; rewrite ?andb_false_r; simpl.
  all: by destruct (isScope _).
Qed.

(** X13.  Of an object that is not a scope and holds no [toJSON] method, a
    property is dropped exactly when its key starts with [$$] or its value
    is [undefined], a symbol, or a function that does not pass for a scope
    (one that does is written as [$SCOPE]).  Every other key, a key with a
    single [$] among them, is written, in the order of the object. *)
Theorem objects_keep_their_other_keys stack key props tree :
  startsWithDollars key = false →
  isScope (Object props) = false →
  serializable (Object props) = true →
  SerializeJSONProperty (S stack) toJsonReplacer key (Object props)
    = Resolved (Some tree) →
  ∃ members,
    tree = JObject members
    ∧ members.*1
      = (filter (fun prop => dropped prop.1 prop.2 = false) props).*1.
Proof.
  intros Hkey Hscope _. cbn [SerializeJSONProperty]. unfold toJsonReplacer at 1.
  rewrite charAt_dollars, Hkey, Hscope. simpl.
  destruct (serializeMembers _ props) as [members|] eqn:Hprops; [|done].
  intros [= <-]. exists members. split; [done|].
  apply serializeMembers_keys in Hprops. rewrite Hprops. f_equal.
  apply list_filter_iff. intros [k v]. simpl. by rewrite dropped_replaced.
Qed.

(** X14.  Given room on the stack for the nesting of an input without BigInt
    and without [toJSON] method, [toAngularJSON] returns; and what it
    returns is [undefined], despite its declared return type, exactly for a
    symbol and for a function that does not pass for a scope.  For every
    other such input it returns a string. *)
Theorem toAngularJSON_undefined_for_symbols_and_functions stack obj pretty :
  serializable obj = true →
  (depth obj < stack)%nat →
  ∃ result,
    toAngularJSON stack obj pretty = Resolved result
    ∧ (result = None
       ↔ (∃ d, obj = Symbol_ d)
         ∨ (∃ f props, obj = Function_ f props ∧ isScope obj = false)).
Proof.
  intros Hserializable Hdepth.
  destruct (serialize_returns stack "" obj Hdepth Hserializable) as [r Hr].
  pose proof (serialized_undefined _ _ _ _ Hr) as Hnone.
  rewrite dropped_replaced in Hnone. unfold dropped in Hnone.
  simpl in Hnone.
  destruct obj as [| |b|n|s|d|z|f fprops|h|items|props].
  1: { eexists. split; [reflexivity|]. split; [done|].
       by intros [[d [=]] | (f & props & [=] & _)]. }
  all: unfold toAngularJSON, JSON_stringify; rewrite Hr.
  all: exists (match r with
               | Some j => Some (render (gapOf (spaceOf pretty)) "" j)
               | None => None
               end).
  all: split; [by destruct r|].
  all: assert ((match r with
                | Some j => Some (render (gapOf (spaceOf pretty)) "" j)
                | None => None
                end = None) ↔ r = None) as -> by (by destruct r).
  all: rewrite Hnone.
  all: split;
    [intros Htrue | intros [[d' Hd] | (f' & props' & Hf & Hscope)]];
    try discriminate.
  - left. by eexists.
  - done.
  - right. exists f, fprops. split; [done|].
    by apply negb_true_iff in Htrue.
  - by rewrite Hscope.
Qed.








End Run.

Section Examples.

Import Demo.

Local Existing Instance Demo.runtime.


Definition holes : Value (H := Demo.runtime) :=
  Array [Undefined; Number (H := Demo.runtime) 1;
         Function_ (H := Demo.runtime) () []].

Definition mixed : Value (H := Demo.runtime) :=
  Object [("id", Symbol_ "row");
          ("scopeLike",
           Function_ (H := Demo.runtime) ()
             [("$evalAsync", Boolean true); ("$watch", Boolean true)]);
          ("$$hashKey", Str "object:7");
          ("render", Function_ (H := Demo.runtime) () []);
          ("none", Null)].



(** [[undefined, 1, f]] is written [[null,1,null]]. *)
Lemma arrays_keep_their_length_witness :
  ∃ elements,
    SerializeJSONProperty 2 toJsonReplacer "tags" holes
    = Resolved (Some (JArray elements))
    ∧ length elements = 3%nat.
Proof.
  destruct (arrays_keep_their_length (R := Demo.runtime) 1 "tags"
              [Undefined; Number (H := Demo.runtime) 1;
               Function_ (H := Demo.runtime) () []]
              (JArray [JNull; JNumber "1"; JNull]) eq_refl eq_refl)
    as (elements & Htree & Hlength & _).
  exists elements. rewrite <- Htree. split; [reflexivity | exact Hlength].
Defined.

(** A symbol, a plain function and a [$$] key go; a function that passes
    for a scope and a [null] stay. *)
Lemma objects_keep_their_other_keys_witness :
  ∃ members,
    SerializeJSONProperty 2 toJsonReplacer "" mixed
    = Resolved (Some (JObject members))
    ∧ members.*1 = ["scopeLike"; "none"].
Proof.
  destruct (SerializeJSONProperty 2 toJsonReplacer "" mixed)
    as [[tree|]|] eqn:Hmixed; try discriminate Hmixed.
  unfold mixed in Hmixed.
  pose proof (fun Hscope Hserializable =>
                objects_keep_their_other_keys (R := Demo.runtime) 1 "" _ tree
                  eq_refl Hscope Hserializable Hmixed) as Hkept.
  destruct (Hkept eq_refl eq_refl) as (members & -> & Hkeys).
  exists members. split; [reflexivity | exact Hkeys].
Defined.

(** A function is not written, unless it passes for a scope. *)
Lemma toAngularJSON_undefined_for_symbols_and_functions_witness :
  toAngularJSON 1 (Function_ (H := Demo.runtime) () []) Undefined
  = Resolved None.
Proof.
  destruct (toAngularJSON_undefined_for_symbols_and_functions
              (R := Demo.runtime) 1 (Function_ (H := Demo.runtime) () [])
              Undefined eq_refl ltac:(simpl; lia))
    as (result & Hrun & Hnone).
  rewrite Hrun. f_equal. apply Hnone. right. by eexists _, _.
Defined.


End Examples.

End AngularJsonMore.
